(** * ECB guide extractor: the reading-order classifier and its helpers

    A shallow embedding of [json_parserv3.py] (the single-pass extractor)
    and of the classification passes of [json_parserv2.py] (the earlier
    three-pass extractor), with the properties of the text normalizer, the
    printed-page resolver and the heading/paragraph state machine.

    Modelling conventions.
    - A Python [str] is a list of Unicode code points ([N]); [len] is
      [length].
    - A font size is a finite float; it is represented by its exact rational
      value ([Q]).  The three thresholds 18.0, 12.5 and 8.5 are exactly
      representable, so float comparison is rational comparison.
    - The regular expressions of the program are written in a small
      pattern language and run by a backtracking matcher that tries the
      alternatives in the order of Python's [re] engine (greedy repetition
      longest first, lazy repetition shortest first).
    - The white-space class ([\s], [str.strip], [str.split]) is the table of
      [str.isspace], and the decimal class ([\d], the digits [int] reads) is
      the table of [str.isdecimal]: the decimal digits of every script, as
      the Unicode character database has them (version 14.0, the one of
      CPython 3.11).
    - [int] raises on a digit string longer than the interpreter's limit
      (4300 digits by default, leading zeros included); raising is [None].
    - [printed_to_index] is a finite map ([gmap]) from printed page numbers
      to physical indices. *)

From Stdlib Require Import ZArith NArith QArith List String Ascii Bool Lia.
From stdpp Require Import gmap list sorting.
Import ListNotations.

Local Open Scope N_scope.

(** ** Strings as code-point lists *)

Definition char := N.
Definition str := list char.

(** ASCII literal of the program text. *)
Fixpoint lit (s : string) : str :=
  match s with
  | EmptyString => []
  | String a r => N_of_ascii a :: lit r
  end.

Definition NEWLINE : char := 10.
Definition SPACE : char := 32.
Definition HYPHEN : char := 45.
Definition DOT : char := 46.
Definition SOFT_HYPHEN : char := 173.      (* "­" *)
Definition EN_DASH : char := 8211.         (* U+2013 *)

Definition str_eqb (a b : str) : bool := bool_decide (a = b).

(** [str.isspace] for one code point; also the class [\s] of a [str]
    pattern. *)
Definition isspace (c : char) : bool :=
  ((9 <=? c) && (c <=? 13)) || ((28 <=? c) && (c <=? 32))
  || (c =? 133) || (c =? 160) || (c =? 5760)
  || ((8192 <=? c) && (c <=? 8202))
  || (c =? 8232) || (c =? 8233) || (c =? 8239) || (c =? 8287) || (c =? 12288).

(** The decimal digits of the Unicode character database come in runs of
    ten consecutive code points, the digits 0 to 9 of one script in order.
    [DECIMAL_ZEROS] lists the digit zero of each run (version 14.0 of the
    database).  The general properties below use of the table only that no
    run holds a white-space character, a full stop or one of the letters
    "T" and "R" ([decimal_runs_clear]). *)
Definition DECIMAL_ZEROS : list char :=
  [ 48; 1632; 1776; 1984; 2406; 2534; 2662; 2790; 2918; 3046; 3174; 3302;
    3430; 3558; 3664; 3792; 3872; 4160; 4240; 6112; 6160; 6470; 6608; 6784;
    6800; 6992; 7088; 7232; 7248; 42528; 43216; 43264; 43472; 43504; 43600;
    44016; 65296; 66720; 68912; 69734; 69872; 69942; 70096; 70384; 70736;
    70864; 71248; 71360; 71472; 71904; 72016; 72784; 73040; 73120; 92768;
    92864; 93008; 120782; 120792; 120802; 120812; 120822; 123200; 123632;
    125264; 130032 ].

(** [c] is one of the ten digits of the run that starts at [z]. *)
Definition in_run (c : char) (z : char) : bool := (z <=? c) && (c <=? z + 9).

(** [str.isdecimal] for one code point; also the class [\d] of a [str]
    pattern. *)
Definition isdecimal (c : char) : bool := existsb (in_run c) DECIMAL_ZEROS.

(** The value of a decimal digit: its offset in its run. *)
Definition digit_value (c : char) : N :=
  match find (in_run c) DECIMAL_ZEROS with
  | Some z => c - z
  | None => 0
  end.

(** The class [[A-Z]]. *)
Definition isupperAZ (c : char) : bool := (65 <=? c) && (c <=? 90).

(** The class [.] (no DOTALL flag): anything but a line feed. *)
Definition anychar (c : char) : bool := negb (c =? NEWLINE).

Definition is_char (a : char) (c : char) : bool := c =? a.

(** ** str methods *)

(** [s.startswith(pfx)] *)
Fixpoint startswith (pfx s : str) : bool :=
  match pfx, s with
  | [], _ => true
  | _ :: _, [] => false
  | a :: pfx', c :: s' => (a =? c) && startswith pfx' s'
  end.

(** [s.replace(old, new)] for a non-empty [old]: the occurrences are taken
    left to right and do not overlap.  [skip] counts the characters of the
    occurrence just replaced that are still to be passed over. *)
Fixpoint replace_from (old new : str) (skip : nat) (s : str) : str :=
  match s with
  | [] => []
  | c :: s' =>
      match skip with
      | S k => replace_from old new k s'
      | O =>
          if startswith old (c :: s')
          then new ++ replace_from old new (Nat.pred (length old)) s'
          else c :: replace_from old new 0 s'
      end
  end.

Definition replace (old new s : str) : str := replace_from old new 0 s.

Fixpoint lstrip (s : str) : str :=
  match s with
  | c :: s' => if isspace c then lstrip s' else s
  | [] => []
  end.

Definition rstrip (s : str) : str := rev (lstrip (rev s)).

(** [s.strip()] *)
Definition strip (s : str) : str := rstrip (lstrip s).

(** [s.split()]: the maximal runs of non-space characters.  [w] is the word
    being read. *)
Fixpoint split_from (w : str) (s : str) : list str :=
  match s with
  | [] => match w with [] => [] | _ => [w] end
  | c :: s' =>
      if isspace c
      then match w with [] => split_from [] s' | _ => w :: split_from [] s' end
      else split_from (w ++ [c]) s'
  end.

Definition str_split (s : str) : list str := split_from [] s.

(** [sep.join(parts)] *)
Fixpoint join (sep : str) (parts : list str) : str :=
  match parts with
  | [] => []
  | [p] => p
  | p :: rest => p ++ sep ++ join sep rest
  end.

(** [s.lower()], as far as the comparison with an ASCII word needs it: the
    letters A-Z are the only code points whose lower case is one of the
    letters of "contents". *)
Definition lower_char (c : char) : char := if isupperAZ c then c + 32 else c.
Definition lower (s : str) : str := map lower_char s.

(** [s[i:]] and [s[i:j]] *)
Definition slice_from (i : nat) (s : str) : str := drop i s.
Definition slice (i j : nat) (s : str) : str := take (j - i) (drop i s).

Arguments isdecimal : simpl never.
Arguments digit_value : simpl never.

(** [sys.get_int_max_str_digits()], at its default. *)
Definition INT_MAX_STR_DIGITS : nat := 4300.

(** [int(s)] on a string of decimal digits; [None] stands for the
    [ValueError] raised on an empty string, on a non-digit, and on a string
    of more than [INT_MAX_STR_DIGITS] digits (every digit counts, a leading
    zero too).  Integers are unbounded. *)
Fixpoint int_digits (acc : Z) (s : str) : option Z :=
  match s with
  | [] => Some acc
  | c :: s' =>
      if isdecimal c
      then int_digits (10 * acc + Z.of_N (digit_value c))%Z s'
      else None
  end.

Definition int (s : str) : option Z :=
  match s with
  | [] => None
  | _ =>
      if (length s <=? INT_MAX_STR_DIGITS)%nat then int_digits 0%Z s else None
  end.

(** ** Patterns and the backtracking matcher *)

Module Re.

(** One element of a pattern: a character class, a repetition of a class,
    a group parenthesis or an anchor. *)
Inductive item : Type :=
| Chr (p : char -> bool)        (* one character of the class *)
| Star (p : char -> bool)       (* p*   greedy *)
| Plus (p : char -> bool)       (* p+   greedy *)
| LazyStar (p : char -> bool)   (* p*?  lazy *)
| GOpen                         (* (  *)
| GClose                        (* )  *)
| Bol                           (* ^  *)
| Eol.                          (* $  *)

Definition pattern := list item.

(** The end position of a match and its groups [(start, end)], in the
    order the groups close. *)
Definition result : Type := nat * list (nat * nat).

(** The rest of the pattern, as a function of the position reached and the
    text still to read. *)
Definition cont := nat -> str -> option result.

(** Greedy repetition: take one more character when possible, and fall
    back to the continuation when the longer attempt fails. *)
Fixpoint greedy (p : char -> bool) (k : cont) (pos : nat) (s : str)
  : option result :=
  match s with
  | c :: s' =>
      if p c
      then match greedy p k (S pos) s' with
           | Some r => Some r
           | None => k pos s
           end
      else k pos s
  | [] => k pos s
  end.

(** Lazy repetition: try the continuation first, take a character only
    when it fails. *)
Fixpoint lazy (p : char -> bool) (k : cont) (pos : nat) (s : str)
  : option result :=
  match k pos s with
  | Some r => Some r
  | None =>
      match s with
      | c :: s' => if p c then lazy p k (S pos) s' else None
      | [] => None
      end
  end.

(** [$] without MULTILINE: at the end, or before a final line feed. *)
Definition at_eol (s : str) : bool :=
  match s with
  | [] => true
  | [c] => c =? NEWLINE
  | _ => false
  end.

Fixpoint run (re : pattern) (opens : list nat) (groups : list (nat * nat))
  : cont :=
  match re with
  | [] => fun pos _ => Some (pos, groups)
  | Chr p :: re' => fun pos s =>
      match s with
      | c :: s' => if p c then run re' opens groups (S pos) s' else None
      | [] => None
      end
  | Star p :: re' => greedy p (run re' opens groups)
  | Plus p :: re' => fun pos s =>
      match s with
      | c :: s' =>
          if p c then greedy p (run re' opens groups) (S pos) s' else None
      | [] => None
      end
  | LazyStar p :: re' => lazy p (run re' opens groups)
  | GOpen :: re' => fun pos s => run re' (pos :: opens) groups pos s
  | GClose :: re' => fun pos s =>
      match opens with
      | o :: opens' => run re' opens' (groups ++ [(o, pos)]) pos s
      | [] => run re' opens groups pos s
      end
  | Bol :: re' => fun pos s =>
      if Nat.eqb pos 0 then run re' opens groups pos s else None
  | Eol :: re' => fun pos s =>
      if at_eol s then run re' opens groups pos s else None
  end.

(** A match object: where it starts, where it ends, its groups. *)
Record mobj : Type := MObj {
  m_start : nat;
  m_end : nat;
  m_groups : list (nat * nat)
}.

(** The match that starts at position [pos], [s] being the text from
    there on. *)
Definition at_pos (re : pattern) (pos : nat) (s : str) : option mobj :=
  match run re [] [] pos s with
  | Some (e, gs) => Some (MObj pos e gs)
  | None => None
  end.

(** [re.match(s)] *)
Definition rmatch (re : pattern) (s : str) : option mobj := at_pos re 0 s.

(** [re.search(s)]: the first position from which the pattern matches. *)
Fixpoint search_from (re : pattern) (pos : nat) (s : str) : option mobj :=
  match at_pos re pos s with
  | Some m => Some m
  | None =>
      match s with
      | [] => None
      | _ :: s' => search_from re (S pos) s'
      end
  end.

Definition search (re : pattern) (s : str) : option mobj :=
  search_from re 0 s.

(** [m.group(n)] for a group that took part in the match, read from the
    text [s] the pattern was applied to. *)
Definition group (m : mobj) (n : nat) (s : str) : str :=
  match m_groups m !! Nat.pred n with
  | Some (a, b) => slice a b s
  | None => []
  end.

(** [re.sub(repl, s)]: the matches are taken left to right and do not
    overlap; an empty match is replaced too and the character after it
    is kept.  [skip] counts the characters of the last match still to be
    passed over. *)
Fixpoint sub_from (re : pattern) (repl : str) (skip pos : nat) (s : str)
  : str :=
  match s with
  | [] =>
      match skip, at_pos re pos [] with
      | O, Some _ => repl
      | _, _ => []
      end
  | c :: s' =>
      match skip with
      | S k => sub_from re repl k (S pos) s'
      | O =>
          match at_pos re pos s with
          | Some m =>
              if Nat.eqb (m_end m) pos
              then repl ++ c :: sub_from re repl 0 (S pos) s'
              else repl ++ sub_from re repl (Nat.pred (m_end m - pos)) (S pos) s'
          | None => c :: sub_from re repl 0 (S pos) s'
          end
      end
  end.

Definition sub (re : pattern) (repl : str) (s : str) : str :=
  sub_from re repl 0 0 s.

(** A literal run of characters. *)
Definition chars (s : str) : pattern := map (fun a => Chr (is_char a)) s.

End Re.

Import Re.

(** ** Heuristics / patterns of the extractor *)

Definition TITLE_MIN_PT : Q := 18 # 1.
Definition HEADING_MIN_PT : Q := 25 # 2.
Definition FOOTNOTE_MAX_PT : Q := 17 # 2.

(** [^\s*(\d+)\.\s+] *)
Definition PARA_START_RE : pattern :=
  [Bol; Star isspace; GOpen; Plus isdecimal; GClose; Chr (is_char DOT);
   Plus isspace].

(** [^\s*(\d+)\.(\d+)\s+(.+)$] *)
Definition SUBSEC_NUMDOT_RE : pattern :=
  [Bol; Star isspace; GOpen; Plus isdecimal; GClose; Chr (is_char DOT);
   GOpen; Plus isdecimal; GClose; Plus isspace;
   GOpen; Plus anychar; GClose; Eol].

(** [^\s*([A-Z])\.(\d+)\s+(.+)$] *)
Definition SUBSEC_ALPHADOT_RE : pattern :=
  [Bol; Star isspace; GOpen; Chr isupperAZ; GClose; Chr (is_char DOT);
   GOpen; Plus isdecimal; GClose; Plus isspace;
   GOpen; Plus anychar; GClose; Eol].

(** [^\s*(\d+)\s+(.+)$] *)
Definition SEC_NUM_RE : pattern :=
  [Bol; Star isspace; GOpen; Plus isdecimal; GClose; Plus isspace;
   GOpen; Plus anychar; GClose; Eol].

(** [^\s*([A-Z])\s+(.+)$] *)
Definition SEC_ALPHA_RE : pattern :=
  [Bol; Star isspace; GOpen; Chr isupperAZ; GClose; Plus isspace;
   GOpen; Plus anychar; GClose; Eol].

Definition HEADER_TITLE : str := lit "ECB guide to internal models".

(** [ECB guide to internal models\s+–\s+.*?\s+(\d+)\s*$] *)
Definition HEADER_NUM_RE : pattern :=
  chars HEADER_TITLE ++
  [Plus isspace; Chr (is_char EN_DASH); Plus isspace; LazyStar anychar;
   Plus isspace; GOpen; Plus isdecimal; GClose; Star isspace; Eol].

(** [ECB guide to internal models\s+–\s+.*?\s+\d+\s*] *)
Definition HEADER_STRIP_RE : pattern :=
  chars HEADER_TITLE ++
  [Plus isspace; Chr (is_char EN_DASH); Plus isspace; LazyStar anychar;
   Plus isspace; Plus isdecimal; Star isspace].

Definition TABLE_HEADING_PREFIXES : list str :=
  [lit "Table "; lit "Relevant regulatory references"].

(** ** normalize_text *)

Definition WS_RUN_RE : pattern := [Plus isspace].   (* \s+ *)

Definition normalize_text (s : str) : str :=
  let s := replace [SOFT_HYPHEN] [] s in
  let s := replace [HYPHEN; NEWLINE] [] s in
  let s := replace [NEWLINE] [SPACE] s in
  let s := sub HEADER_STRIP_RE [SPACE] s in
  strip (sub WS_RUN_RE [SPACE] s).

(** ** The layout collaborator's data

    [page.get_text("dict", sort=True)] gives the blocks of a page; a text
    block has type 0 and lines of spans, a span a text and a font size. *)

Record span : Type := Span { span_text : str; span_size : Q }.

Record pblock : Type := PBlock {
  block_type : Z;
  block_lines : list (list span)
}.

(** A loaded page: its physical index and its blocks. *)
Record page : Type := Page { number : nat; page_blocks : list pblock }.

(** A document: the block lists of its pages, in physical order. *)
Abbreviation document := (list (list pblock)).

Definition load_page (doc : document) (i : nat) : option page :=
  Page i <$> doc !! i.

(** ["".join(span text for line in lines for span in line spans)] *)
Definition raw_text (b : pblock) : str :=
  concat (map span_text (concat (block_lines b))).

Definition Qlt_bool (x y : Q) : bool := negb (Qle_bool y x).

(** [max(sizes)]: the first of the largest elements. *)
Fixpoint max_from (cur : Q) (l : list Q) : Q :=
  match l with
  | [] => cur
  | x :: r => max_from (if Qlt_bool cur x then x else cur) r
  end.

Definition max_size_of (sizes : list Q) : Q :=
  match sizes with
  | [] => 0
  | x :: r => max_from x r
  end.

(** ** get_printed_page_number *)

Fixpoint printed_in_blocks (bs : list pblock) (fallback : Z) : option Z :=
  match bs with
  | [] => Some fallback
  | block :: rest =>
      if negb (block_type block =? 0)%Z then printed_in_blocks rest fallback
      else
        let raw := raw_text block in
        match search HEADER_NUM_RE raw with
        | Some m => int (group m 1 raw)
        | None => printed_in_blocks rest fallback
        end
  end.

Definition get_printed_page_number (pg : page) : option Z :=
  printed_in_blocks (page_blocks pg) (Z.of_nat (number pg) + 1)%Z.

(** ** collect_blocks *)

Record tblock : Type := TBlock { idx : nat; text : str; max_size : Q }.

Fixpoint collect_from (bi : nat) (bs : list pblock) : list tblock :=
  match bs with
  | [] => []
  | block :: rest =>
      if negb (block_type block =? 0)%Z then collect_from (S bi) rest
      else
        let txt := normalize_text (raw_text block) in
        match txt with
        | [] => collect_from (S bi) rest
        | _ =>
            let sizes := map span_size (concat (block_lines block)) in
            TBlock bi txt (max_size_of sizes) :: collect_from (S bi) rest
        end
  end.

Definition collect_blocks (pg : page) : list tblock :=
  collect_from 0 (page_blocks pg).

Definition looks_like_table_heading (txt : str) : bool :=
  existsb (fun pfx => startswith pfx txt) TABLE_HEADING_PREFIXES.

(** [if m:] for a match object or [None]. *)
Definition is_match (o : option mobj) : bool :=
  match o with Some _ => true | None => false end.

(** ** The classifier state and the output records *)

Record para : Type := Para {
  p_title : str;
  p_section : str;
  p_subsection : str;
  p_paragraph_number : str;
  p_page : Z;
  p_text : str
}.

Record state : Type := State {
  results : list para;
  title : option str;
  section : str;
  subsection : str;
  chapter_id : option str;
  cur_para : option para;
  buf : list str
}.

Definition NA : str := lit "N/A".

(** [x or "N/A"] for a string, and for a string that may be [None]. *)
Definition or_NA (s : str) : str := match s with [] => NA | _ => s end.
Definition opt_or_NA (o : option str) : str :=
  match o with Some s => or_NA s | None => NA end.

Definition init_state : state :=
  State [] None NA NA None None [].

Definition set_text (p : para) (t : str) : para :=
  Para (p_title p) (p_section p) (p_subsection p) (p_paragraph_number p)
       (p_page p) t.

Definition flush (st : state) : state :=
  let results' :=
    match cur_para st with
    | Some p =>
        match normalize_text (join [SPACE] (buf st)) with
        | [] => results st
        | t => results st ++ [set_text p t]
        end
    | None => results st
    end in
  State results' (title st) (section st) (subsection st) (chapter_id st)
        None [].

(** The test of the chapter-title rule. *)
Definition is_title (b : tblock) : bool :=
  Qle_bool TITLE_MIN_PT (max_size b)
  && (length (text b) <? 200)%nat
  && negb (str_eqb (lower (text b)) (lit "contents")).

Definition set_title (st : state) (txt : str) : state :=
  State (results st) (Some txt) NA NA None (cur_para st) (buf st).

(** The numbered-paragraph branch and the continuation branch, shared by
    the two extractors. *)
Definition paragraph_or_continuation (printed : Z) (st : state) (txt : str)
  : state :=
  match rmatch PARA_START_RE txt with
  | Some m =>
      let st := flush st in
      let p := Para (opt_or_NA (title st)) (or_NA (section st))
                    (or_NA (subsection st)) (group m 1 txt) printed [] in
      let rest := strip (slice_from (m_end m) txt) in
      State (results st) (title st) (section st) (subsection st)
            (chapter_id st) (Some p)
            (match rest with [] => buf st | _ => buf st ++ [rest] end)
  | None =>
      match cur_para st with
      | Some _ =>
          State (results st) (title st) (section st) (subsection st)
                (chapter_id st) (cur_para st) (buf st ++ [txt])
      | None => st
      end
  end.

(** ** json_parserv3: single pass in reading order *)

Module V3.

(** The four heading patterns in the order they are tried; the result is
    the chapter id a matching pattern captures. *)
Definition heading_match (txt : str) : option str :=
  match rmatch SUBSEC_NUMDOT_RE txt with
  | Some m => Some (group m 1 txt)
  | None =>
  match rmatch SUBSEC_ALPHADOT_RE txt with
  | Some m => Some (group m 1 txt)
  | None =>
  match (match rmatch SEC_NUM_RE txt with
         | Some m =>
             if (2 <? length (str_split txt))%nat
             then Some (group m 1 txt) else None
         | None => None
         end) with
  | Some c => Some c
  | None =>
  match rmatch SEC_ALPHA_RE txt with
  | Some m =>
      if (2 <? length (str_split txt))%nat
      then Some (group m 1 txt) else None
  | None => None
  end end end end.

Definition set_heading (st : state) (cid txt : str) : state :=
  State (results st) (title st) (opt_or_NA (title st)) txt (Some cid)
        (cur_para st) (buf st).

(** The body of the loop over the blocks of a page. *)
Definition process_block (printed : Z) (st : state) (b : tblock) : state :=
  let txt := text b in
  let sz := max_size b in
  if is_title b then set_title st txt
  else
    match (if Qle_bool HEADING_MIN_PT sz then heading_match txt else None)
    with
    | Some cid => set_heading st cid txt
    | None =>
        if Qlt_bool sz FOOTNOTE_MAX_PT || looks_like_table_heading txt
        then st
        else paragraph_or_continuation printed st txt
    end.

Definition process_blocks (printed : Z) (st : state) (bs : list tblock)
  : state :=
  fold_left (process_block printed) bs st.

End V3.

(** ** json_parserv2: three passes over the blocks of each page *)

Module V2.

(** [f"{chapter_id} {title}" if title else chapter_id]; the first branch
    of pass B ends in [or "N/A"]. *)
Definition section_label (cid : str) (t : option str) (na : bool) : str :=
  match t with
  | Some ((_ :: _) as ti) => cid ++ [SPACE] ++ ti
  | _ => if na then or_NA cid else cid
  end.

Definition pass_a (st : state) (b : tblock) : state :=
  if is_title b then set_title st (text b) else st.

Definition set_heading (st : state) (cid txt : str) (na : bool) : state :=
  State (results st) (title st) (section_label cid (title st) na) txt
        (Some cid) (cur_para st) (buf st).

Definition pass_b (st : state) (b : tblock) : state :=
  if Qlt_bool (max_size b) HEADING_MIN_PT then st
  else
    let txt := text b in
    match rmatch SUBSEC_NUMDOT_RE txt with
    | Some m => set_heading st (group m 1 txt) txt true
    | None =>
    match rmatch SUBSEC_ALPHADOT_RE txt with
    | Some m => set_heading st (group m 1 txt) txt false
    | None =>
    match rmatch SEC_NUM_RE txt with
    | Some m => set_heading st (group m 1 txt) txt false
    | None =>
    match rmatch SEC_ALPHA_RE txt with
    | Some m => set_heading st (group m 1 txt) txt false
    | None => st
    end end end end.

Definition matches_heading (txt : str) : bool :=
  is_match (rmatch SUBSEC_NUMDOT_RE txt)
  || is_match (rmatch SUBSEC_ALPHADOT_RE txt)
  || is_match (rmatch SEC_NUM_RE txt)
  || is_match (rmatch SEC_ALPHA_RE txt).

Definition pass_c (printed : Z) (st : state) (b : tblock) : state :=
  if Qlt_bool (max_size b) FOOTNOTE_MAX_PT then st
  else
    let txt := text b in
    if (Qle_bool HEADING_MIN_PT (max_size b) && matches_heading txt)
       || looks_like_table_heading txt
    then st
    else paragraph_or_continuation printed st txt.

Definition process_blocks (printed : Z) (st : state) (bs : list tblock)
  : state :=
  let st := fold_left pass_a bs st in
  let st := fold_left pass_b bs st in
  fold_left (pass_c printed) bs st.

End V2.

(** ** extract_json: the page index and the driving loop *)

(** [printed_to_index[get_printed_page_number(doc.load_page(i))] = i] for
    [i] from [i0] on, [pages] being the pages from [i0]. *)
Fixpoint build_index (pages : list (list pblock)) (i0 : nat)
    (printed_to_index : gmap Z nat) : option (gmap Z nat) :=
  match pages with
  | [] => Some printed_to_index
  | bs :: rest =>
      match get_printed_page_number (Page i0 bs) with
      | Some n => build_index rest (S i0) (<[n := i0]> printed_to_index)
      | None => None
      end
  end.

Section Driver.

(** The per-page classifier: [V3.process_blocks] or [V2.process_blocks]. *)
Variable process_blocks : Z -> state -> list tblock -> state.

Definition process_page (doc : document) (printed_to_index : gmap Z nat)
    (st : state) (printed : Z) : state :=
  match printed_to_index !! printed with
  | None => st
  | Some i =>
      match load_page doc i with
      | Some pg => process_blocks printed st (collect_blocks pg)
      | None => st
      end
  end.

(** [None] when building the page index raises. *)
Definition extract (doc : document) (start_printed_page end_printed_page : Z)
  : option (list para) :=
  match build_index doc 0 ∅ with
  | None => None
  | Some printed_to_index =>
      let range :=
        seqZ start_printed_page (end_printed_page + 1 - start_printed_page) in
      let st := fold_left (process_page doc printed_to_index) range init_state in
      Some (results (flush st))
  end.

End Driver.

Definition extract_json := extract V3.process_blocks.
Definition extract_json_v2 := extract V2.process_blocks.


(** ** Vocabulary of the classification rules *)

(** The section/subsection rule fires on [b]. *)
Definition is_heading (b : tblock) : bool :=
  negb (is_title b)
  && Qle_bool HEADING_MIN_PT (max_size b)
  && bool_decide (V3.heading_match (text b) <> None).

(** The footnote/table rule is the first to fire on [b]. *)
Definition is_discarded (b : tblock) : bool :=
  negb (is_title b) && negb (is_heading b)
  && (Qlt_bool (max_size b) FOOTNOTE_MAX_PT
      || looks_like_table_heading (text b)).

(** The paragraph-start rule is the first to fire on [b]. *)
Definition is_paragraph_start (b : tblock) : bool :=
  negb (is_title b) && negb (is_heading b) && negb (is_discarded b)
  && is_match (rmatch PARA_START_RE (text b)).

(** No rule but the last applies to [b]. *)
Definition is_continuation (b : tblock) : bool :=
  negb (is_title b) && negb (is_heading b) && negb (is_discarded b)
  && negb (is_match (rmatch PARA_START_RE (text b))).

(** A run of the single-pass classifier over blocks that may come from
    several pages: each block with the printed number of its page. *)
Definition run_blocks (tr : list (Z * tblock)) (st : state) : state :=
  fold_left (fun st pb => V3.process_block (fst pb) st (snd pb)) tr st.

(** The first text block of a page that carries the running header. *)
Definition header_block (bs : list pblock) : option pblock :=
  find (fun b => (block_type b =? 0)%Z
                 && is_match (search HEADER_NUM_RE (raw_text b))) bs.


(** The printed number of the page with index [i] and blocks [bs] where the
    resolver returns one, and the page index built from the pages where it
    returns one for each of them, as plain functions. *)
Definition printed_of (i : nat) (bs : list pblock) : Z :=
  default 0%Z (get_printed_page_number (Page i bs)).

Fixpoint index_of (pages : list (list pblock)) (i0 : nat)
    (printed_to_index : gmap Z nat) : gmap Z nat :=
  match pages with
  | [] => printed_to_index
  | bs :: rest =>
      index_of rest (S i0) (<[printed_of i0 bs := i0]> printed_to_index)
  end.


(** ** Vocabulary of the normalizer *)

(** The number of leading characters of the class [p]. *)
Fixpoint run_len (p : char -> bool) (s : str) : nat :=
  match s with
  | c :: s' => if p c then S (run_len p s') else O
  | [] => O
  end.

(** Each run of white space replaced by one space; [in_ws] tells that the
    run being read has been replaced already. *)
Fixpoint squeeze (in_ws : bool) (s : str) : str :=
  match s with
  | [] => []
  | c :: s' =>
      if isspace c
      then if in_ws then squeeze true s' else SPACE :: squeeze true s'
      else c :: squeeze false s'
  end.

(** The only white space is the space character, and no two spaces are
    adjacent; [prev_ws] tells that a space stands just before. *)
Fixpoint single_spaced (prev_ws : bool) (s : str) : bool :=
  match s with
  | [] => true
  | c :: s' =>
      if isspace c
      then (c =? SPACE) && negb prev_ws && single_spaced true s'
      else single_spaced false s'
  end.


(** ** Example documents *)

(** A text block with one line of one span. *)
Definition text_block (s : string) (sz : Q) : pblock :=
  PBlock 0 [[Span (lit s) sz]].

(** Two pages: a chapter title, a subsection heading and a paragraph that
    runs over the page break, then a second paragraph. *)
Definition scenario_doc : document :=
  [ [ text_block "Overarching principles" 20;
      text_block "1.2 Scope" 14;
      text_block "1. This guide applies to..." 11 ];
    [ text_block "to all significant institutions." 11;
      text_block "2. Further, ..." 11 ] ].

(** One page: a paragraph, then a heading, then unnumbered text. *)
Definition absorbing_doc : document :=
  [ [ text_block "1. Alpha" 11;
      text_block "1.2 Scope" 14;
      text_block "beta" 11 ] ].

(** One page: a paragraph above a heading and a paragraph below it. *)
Definition interleaved_doc : document :=
  [ [ text_block "1. Alpha" 11;
      text_block "1.2 Scope" 14;
      text_block "2. Gamma" 11 ] ].

(** A header whose literal part only appears once white space has been
    collapsed (two spaces after "ECB"). *)
Definition late_header : str :=
  lit "ECB  guide to internal models " ++ [EN_DASH] ++ lit " x 1".

(** Two pages that both resolve to the printed number 2: the first by its
    running header, the second by the fallback. *)
Definition colliding_doc : document :=
  [ [ PBlock 0 [[Span (lit "ECB guide to internal models " ++ [EN_DASH]
                       ++ lit " Foreword 2") 9]];
      text_block "1. Hidden" 11 ];
    [ text_block "1. Shown" 11 ] ].

(** The page index of [colliding_doc]: the second page has overwritten the
    first. *)
Definition colliding_index : gmap Z nat := <[2%Z := 1%nat]> (<[2%Z := 0%nat]> ∅).

(** A page whose running header ends in a number of 4301 digits. *)
Definition long_number_page : page :=
  Page 0 [ PBlock 0 [[Span (lit "ECB guide to internal models " ++ [EN_DASH]
                            ++ lit " Foreword " ++ repeat 49 4301) 9]] ].

(** ** Example blocks and states *)

Definition title_block : tblock :=
  TBlock 0 (lit "Overarching principles") 20.

Definition paragraph_block : tblock := TBlock 0 (lit "1. Alpha") 11.

Definition heading_block : tblock := TBlock 1 (lit "1.2 Scope") 14.

Definition dotted_body_block : tblock := TBlock 1 (lit "1.2 Scope") 11.

Definition footnote_block : tblock := TBlock 2 (lit "1 See Article 4.") 7.

Definition body_block : tblock := TBlock 3 (lit "its models.") 11.

(** Paragraph 3 of page 9 is in flight under the headings of a chapter. *)
Definition state_in_paragraph : state :=
  State [] (Some (lit "Foreword")) (lit "Foreword") (lit "1.1 Purpose")
        (Some (lit "1"))
        (Some (Para (lit "Foreword") (lit "Foreword") (lit "1.1 Purpose")
                    (lit "3") 9 []))
        [lit "The institution"].

(** A text with a running header in it and irregular white space. *)
Definition text_with_header : str :=
  lit "  The  scope ECB guide to internal models " ++ [EN_DASH]
  ++ lit " Foreword 12 of the" ++ [NEWLINE] ++ lit "guide ".


(** ** Vocabulary of the output records *)

(** The printed pages of the records of a state: the emitted ones in the
    order of emission, then the paragraph in flight. *)
Definition pages_of (st : state) : list Z :=
  map p_page (results st)
  ++ match cur_para st with Some p => [p_page p] | None => [] end.

(** What [paragraph_or_continuation] gives every record it opens. *)
Definition fields_ok (p : para) : Prop :=
  p_title p <> [] /\ p_section p <> [] /\ p_subsection p <> [] /\
  p_paragraph_number p <> [] /\
  forallb isdecimal (p_paragraph_number p) = true.

(** What [flush] adds to an emitted record. *)
Definition emitted_ok (p : para) : Prop :=
  fields_ok p /\ p_text p <> [] /\
  exists raw : str, p_text p = normalize_text raw.

(** The records of a state while the page [hi] of a range that starts at
    [lo] is being read. *)
Definition records_ok (lo hi : Z) (st : state) : Prop :=
  Forall emitted_ok (results st) /\
  (forall p : para, cur_para st = Some p -> fields_ok p) /\
  StronglySorted Z.le (pages_of st) /\
  Forall (fun x => (lo <= x <= hi)%Z) (pages_of st).

(** In the single-pass extractor a section label is the title or "N/A". *)
Definition section_is_title (p : para) : Prop :=
  p_section p = NA \/ p_section p = p_title p.

Definition sections_ok (st : state) : Prop :=
  (section st = NA \/ section st = opt_or_NA (title st)) /\
  Forall section_is_title (results st) /\
  (forall p : para, cur_para st = Some p -> section_is_title p).

(** ** Tidy texts *)

(** A text that is not empty, has no line feed, no soft hyphen and no en
    dash, has single spaces as its only white space, and neither starts
    nor ends with white space. *)
Definition tidy (t : str) : Prop :=
  t <> [] /\ (NEWLINE ∉ t) /\ (SOFT_HYPHEN ∉ t) /\ (EN_DASH ∉ t) /\
  single_spaced false t = true /\
  (forall (c : char) (r : str), t = c :: r -> isspace c = false) /\
  (forall (l : str) (c : char), t = l ++ [c] -> isspace c = false).

(** ** Vocabulary for comparing the two extractors *)

(** Neither a title nor a block of heading size that one of the four
    heading patterns matches. *)
Definition is_plain (b : tblock) : bool :=
  negb (is_title b)
  && negb (Qle_bool HEADING_MIN_PT (max_size b) && V2.matches_heading (text b)).

(** The heading context of the three-pass extractor for a page: the state
    after passes A and B. *)
Definition v2_page_context (st : state) (bs : list tblock) : state :=
  fold_left V2.pass_b bs (fold_left V2.pass_a bs st).

(** A record opened on the page [printed] under the context [ctx]. *)
Definition opened_under (ctx : state) (printed : Z) (p : para) : Prop :=
  p_title p = opt_or_NA (title ctx) /\
  p_section p = or_NA (section ctx) /\
  p_subsection p = or_NA (subsection ctx) /\
  p_page p = printed.

(** While pass C reads a page: the context is [ctx], and the records
    emitted since [old] and the paragraph in flight were opened under it. *)
Definition v2_page_inv (ctx : state) (printed : Z) (old : list para)
    (st : state) : Prop :=
  title st = title ctx /\ section st = section ctx /\
  subsection st = subsection ctx /\
  (exists new : list para,
      results st = old ++ new /\ Forall (opened_under ctx printed) new) /\
  (forall p : para, cur_para st = Some p -> opened_under ctx printed p).

(** ** Further examples *)

(** A page with one text block of two spans and an image block. *)
Definition two_span_page : page :=
  Page 0 [ PBlock 1 [];
           PBlock 0 [[Span (lit "1. Alpha ") 11; Span (lit "beta") 9]] ].

Definition two_span_block : tblock := TBlock 1 (lit "1. Alpha beta") 11.

(** A document of body text only. *)
Definition plain_doc : document :=
  [ [ text_block "1. Alpha" 11; text_block "beta" 11 ];
    [ text_block "gamma" 11; text_block "2. Delta" 11 ] ].

(** The collected blocks of the page of [interleaved_doc]. *)
Definition interleaved_blocks : list tblock :=
  [ TBlock 0 (lit "1. Alpha") 11; TBlock 1 (lit "1.2 Scope") 14;
    TBlock 2 (lit "2. Gamma") 11 ].

(** The page index of [scenario_doc] and the records extracted from its
    pages 1 to 2. *)
Definition scenario_index : gmap Z nat := <[2%Z := 1%nat]> (<[1%Z := 0%nat]> ∅).

Definition scenario_records : list para :=
  [ Para (lit "Overarching principles") (lit "Overarching principles")
         (lit "1.2 Scope") (lit "1") 1
         (lit "This guide applies to... to all significant institutions.");
    Para (lit "Overarching principles") (lit "Overarching principles")
         (lit "1.2 Scope") (lit "2") 2
         (lit "Further, ...") ].

(** A paragraph number that stands alone in its block. *)
Definition lone_number_block : tblock := TBlock 0 (lit "12.") 11.

Definition table_block : tblock :=
  TBlock 0 (lit "Table 3 Overview of requirements") 14.


(** * Properties *)

(** ** Worked examples *)

(** C2: on the two-page scenario the extractor returns exactly two records;
    the first joins the text across the page break under the title and the
    subsection read before it, the second carries the same headings and its
    own page number. *)
Theorem scenario_two_records :
  extract_json scenario_doc 1 2 =
  Some [ Para (lit "Overarching principles") (lit "Overarching principles")
              (lit "1.2 Scope") (lit "1") 1
              (lit "This guide applies to... to all significant institutions.");
         Para (lit "Overarching principles") (lit "Overarching principles")
              (lit "1.2 Scope") (lit "2") 2
              (lit "Further, ...") ].
Proof. vm_compute. reflexivity. Qed.

(** C3, as the program has it: a hyphen followed by a line feed is removed
    together with the line feed, so "model-\nbased" becomes "modelbased". *)
Theorem normalize_hyphen_break :
  normalize_text (lit "model-" ++ [NEWLINE] ++ lit "based") = lit "modelbased".
Proof. vm_compute. reflexivity. Qed.

(** C3, as stated, fails: the result is not "model-based". *)
Lemma normalize_hyphen_break_not_kept :
  normalize_text (lit "model-" ++ [NEWLINE] ++ lit "based") <> lit "model-based".
Proof. vm_compute. discriminate. Qed.

(** C5: the three-pass extractor and the single-pass extractor differ on a
    page whose heading stands between two paragraphs: read in order, the
    first paragraph has no subsection yet; the three-pass variant has
    already applied the heading when it reaches the paragraphs. *)
Theorem multi_pass_differs :
  exists (doc : document) (s e : Z) (r2 r3 : list para),
    extract_json_v2 doc s e = Some r2 /\
    extract_json doc s e = Some r3 /\
    r2 <> r3 /\
    p_subsection <$> head r3 = Some NA /\
    p_subsection <$> head r2 = Some (lit "1.2 Scope").
Proof.
  exists interleaved_doc, 1%Z, 1%Z.
  eexists. eexists.
  split; [vm_compute; reflexivity |].
  split; [vm_compute; reflexivity |].
  split; [discriminate |].
  split; reflexivity.
Qed.

(** C1, as stated, fails: the heading "1.2 Scope" matches the numeric
    subsection rule while paragraph 1 is in flight, the paragraph stays in
    flight, and the text below the heading ends up in it. *)
Lemma heading_leaves_paragraph_open :
  V3.heading_match (text heading_block) = Some (lit "1") /\
  is_heading heading_block = true /\
  cur_para (V3.process_block 1 init_state paragraph_block) <> None /\
  cur_para (V3.process_block 1
              (V3.process_block 1 init_state paragraph_block) heading_block)
  = cur_para (V3.process_block 1 init_state paragraph_block) /\
  results (V3.process_block 1
             (V3.process_block 1 init_state paragraph_block) heading_block)
  = [] /\
  extract_json absorbing_doc 1 1 =
    Some [Para NA NA NA (lit "1") 1 (lit "Alpha beta")].
Proof.
  vm_compute. repeat split; discriminate.
Qed.

(** C4, as stated, fails: collapsing white space can complete a running
    header that the header-stripping step, which runs before, did not see;
    a second normalization then removes it. *)
Lemma normalize_not_idempotent :
  normalize_text (normalize_text late_header) <> normalize_text late_header.
Proof. vm_compute. discriminate. Qed.

(** ** Font sizes and character classes *)

Lemma Qlt_bool_iff (x y : Q) : Qlt_bool x y = true <-> (x < y)%Q.
Proof.
  unfold Qlt_bool. rewrite negb_true_iff. split.
  - intros H. apply Qnot_le_lt. intros Hle.
    apply Qle_bool_iff in Hle. congruence.
  - intros H. destruct (Qle_bool y x) eqn:E; [| reflexivity].
    apply Qle_bool_iff in E. exfalso. exact (Qlt_not_le _ _ H E).
Qed.

Lemma Qle_bool_false (x y : Q) : (y < x)%Q -> Qle_bool x y = false.
Proof.
  intros H. destruct (Qle_bool x y) eqn:E; [| reflexivity].
  apply Qle_bool_iff in E. exfalso. exact (Qlt_not_le _ _ H E).
Qed.

Lemma Qlt_bool_false (x y : Q) : (y <= x)%Q -> Qlt_bool x y = false.
Proof.
  intros H. unfold Qlt_bool. apply Qle_bool_iff in H. rewrite H. reflexivity.
Qed.

Lemma below_heading_not_title (b : tblock) :
  (max_size b < HEADING_MIN_PT)%Q -> is_title b = false.
Proof.
  intros H. unfold is_title. rewrite Qle_bool_false; [reflexivity |].
  eapply Qlt_trans; [exact H | reflexivity].
Qed.

Lemma in_run_iff (c z : char) : in_run c z = true <-> z <= c <= z + 9.
Proof. unfold in_run. rewrite andb_true_iff, !N.leb_le. reflexivity. Qed.

Lemma decimal_run (c : char) :
  isdecimal c = true <-> exists z : char, z ∈ DECIMAL_ZEROS /\ z <= c <= z + 9.
Proof.
  unfold isdecimal. rewrite existsb_exists. split.
  - intros (z & Hin & H). exists z. rewrite <- in_run_iff.
    split; [apply list_elem_of_In; exact Hin | exact H].
  - intros (z & Hin & H). exists z. rewrite in_run_iff.
    split; [apply list_elem_of_In; exact Hin | exact H].
Qed.

Lemma ascii_digit_decimal (c : char) : 48 <= c <= 57 -> isdecimal c = true.
Proof.
  intros H. apply decimal_run. exists 48. split; [left | lia].
Qed.

(** Closes a goal [class c = false] from arithmetic facts on [c]. *)
Ltac class_false :=
  repeat apply orb_false_intro;
  first [ apply N.eqb_neq; lia
        | apply andb_false_iff; left; apply N.leb_gt; lia
        | apply andb_false_iff; right; apply N.leb_gt; lia ].

(** No run of decimal digits holds a white-space character, the full stop
    or one of the letters "T" and "R". *)
Lemma decimal_runs_clear :
  Forall (fun z : char =>
            forall c : char,
              z <= c <= z + 9 ->
              isspace c = false /\ c <> DOT /\ c <> 84 /\ c <> 82)
         DECIMAL_ZEROS.
Proof.
  unfold DECIMAL_ZEROS, DOT.
  repeat (apply Forall_cons; split;
          [intros c H; split; [unfold isspace; class_false | lia] |]).
  apply Forall_nil. exact I.
Qed.

Lemma decimal_classes (c : char) :
  isdecimal c = true -> isspace c = false /\ c <> DOT /\ c <> 84 /\ c <> 82.
Proof.
  rewrite decimal_run. intros (z & Hin & H).
  pose proof decimal_runs_clear as HF. rewrite Forall_forall in HF.
  exact (HF z Hin c H).
Qed.

Lemma decimal_not_space (c : char) : isdecimal c = true -> isspace c = false.
Proof. intros H. apply decimal_classes in H. tauto. Qed.

Lemma decimal_not_dot (c : char) : isdecimal c = true -> is_char DOT c = false.
Proof.
  intros H. apply decimal_classes in H as (_ & H & _).
  unfold is_char. apply N.eqb_neq. exact H.
Qed.

Lemma decimal_not_table_heading (c : char) (s : str) :
  isdecimal c = true -> looks_like_table_heading (c :: s) = false.
Proof.
  intros H. apply decimal_classes in H as (_ & _ & HT & HR).
  unfold looks_like_table_heading, TABLE_HEADING_PREFIXES.
  cbn [existsb lit startswith].
  assert (E1 : (N_of_ascii "T" =? c) = false)
    by (apply N.eqb_neq; intros X; apply HT; rewrite <- X; reflexivity).
  assert (E2 : (N_of_ascii "R" =? c) = false)
    by (apply N.eqb_neq; intros X; apply HR; rewrite <- X; reflexivity).
  rewrite E1, E2. reflexivity.
Qed.

(** ** The classifier, rule by rule *)

Lemma flush_context (st : state) :
  title (flush st) = title st /\ section (flush st) = section st /\
  subsection (flush st) = subsection st /\ chapter_id (flush st) = chapter_id st.
Proof. unfold flush. simpl. auto. Qed.

Lemma paragraph_or_continuation_context (printed : Z) (st : state) (txt : str) :
  let st' := paragraph_or_continuation printed st txt in
  title st' = title st /\ section st' = section st /\
  subsection st' = subsection st /\ chapter_id st' = chapter_id st.
Proof.
  unfold paragraph_or_continuation.
  destruct (rmatch PARA_START_RE txt); simpl; [auto |].
  destruct (cur_para st); simpl; auto.
Qed.

(** A block on which the heading rule does not fire leaves unset labels
    unset. *)
Lemma non_heading_keeps_unset (printed : Z) (st : state) (b : tblock) :
  is_heading b = false ->
  section st = NA /\ subsection st = NA ->
  section (V3.process_block printed st b) = NA /\
  subsection (V3.process_block printed st b) = NA.
Proof.
  intros Hh [Hs Hss]. unfold V3.process_block, is_heading in *.
  destruct (is_title b); simpl in *; [auto |].
  destruct (Qle_bool HEADING_MIN_PT (max_size b)); simpl in *.
  - destruct (V3.heading_match (text b)) eqn:E.
    + exfalso. apply bool_decide_eq_false in Hh. apply Hh. discriminate.
    + destruct (_ || _); [auto |].
      destruct (paragraph_or_continuation_context printed st (text b))
        as (_ & -> & -> & _). auto.
  - destruct (_ || _); [auto |].
    destruct (paragraph_or_continuation_context printed st (text b))
      as (_ & -> & -> & _). auto.
Qed.

Lemma run_blocks_keeps_unset (tr : list (Z * tblock)) (st : state) :
  Forall (fun pb => is_heading (snd pb) = false) tr ->
  section st = NA /\ subsection st = NA ->
  section (run_blocks tr st) = NA /\ subsection (run_blocks tr st) = NA.
Proof.
  intros H. revert st. induction H as [| [p b] tr Hb _ IH]; intros st Hst.
  - exact Hst.
  - simpl. apply IH. apply non_heading_keeps_unset; assumption.
Qed.

Lemma is_title_intro (b : tblock) :
  (TITLE_MIN_PT <= max_size b)%Q ->
  (length (text b) < 200)%nat ->
  lower (text b) <> lit "contents" ->
  is_title b = true.
Proof.
  intros H1 H2 H3. unfold is_title.
  apply Qle_bool_iff in H1. rewrite H1.
  apply Nat.ltb_lt in H2. rewrite H2.
  unfold str_eqb. rewrite bool_decide_eq_false_2; [reflexivity | exact H3].
Qed.

(** C6: a block of at least 18 pt, shorter than 200 characters and not the
    word "contents" in any letter case becomes the title; section,
    subsection and chapter id are reset; the paragraph in flight, its
    buffer and the records already emitted are untouched.  From there on
    section and subsection stay unset as long as no heading rule fires,
    whatever the blocks and pages that follow. *)
Theorem title_resets_heading_context
    (printed : Z) (st : state) (b : tblock) :
  (TITLE_MIN_PT <= max_size b)%Q ->
  (length (text b) < 200)%nat ->
  lower (text b) <> lit "contents" ->
  V3.process_block printed st b =
    State (results st) (Some (text b)) NA NA None (cur_para st) (buf st)
  /\ forall tr : list (Z * tblock),
       Forall (fun pb => is_heading (snd pb) = false) tr ->
       section (run_blocks tr (V3.process_block printed st b)) = NA /\
       subsection (run_blocks tr (V3.process_block printed st b)) = NA.
Proof.
  intros H1 H2 H3.
  assert (E : V3.process_block printed st b =
              State (results st) (Some (text b)) NA NA None
                    (cur_para st) (buf st)).
  { unfold V3.process_block. rewrite (is_title_intro b H1 H2 H3). reflexivity. }
  split; [exact E |].
  intros tr Htr. apply run_blocks_keeps_unset; [exact Htr |].
  rewrite E. simpl. auto.
Qed.

Lemma footnote_block_skipped (printed : Z) (st : state) (b : tblock) :
  (max_size b < FOOTNOTE_MAX_PT)%Q -> V3.process_block printed st b = st.
Proof.
  intros H. unfold V3.process_block.
  rewrite below_heading_not_title
    by (eapply Qlt_trans; [exact H | reflexivity]).
  rewrite (Qle_bool_false HEADING_MIN_PT)
    by (eapply Qlt_trans; [exact H | reflexivity]).
  apply Qlt_bool_iff in H. rewrite H. reflexivity.
Qed.

(** C7: a block below 8.5 pt leaves the whole classifier state as it is
    (heading context, paragraph in flight, buffer, emitted records), so a
    run over a page gives the same state with the block as without it: its
    text reaches no record, and the paragraph around it stays in flight. *)
Theorem footnote_block_is_inert
    (printed : Z) (st : state) (b : tblock) :
  (max_size b < FOOTNOTE_MAX_PT)%Q ->
  V3.process_block printed st b = st
  /\ forall (before after : list tblock) (st0 : state),
       V3.process_blocks printed st0 (before ++ b :: after) =
       V3.process_blocks printed st0 (before ++ after).
Proof.
  intros H. split; [apply footnote_block_skipped; exact H |].
  intros before after st0. unfold V3.process_blocks.
  rewrite !fold_left_app. simpl.
  rewrite footnote_block_skipped by exact H. reflexivity.
Qed.

(** ** The paragraph-start pattern on dotted labels *)

Lemma greedy_decimal_dot_decimal
    (ds : str) (pos : nat) (d : char) (rest : str)
    (opens : list nat) (groups : list (nat * nat)) :
  forallb isdecimal ds = true ->
  isdecimal d = true ->
  greedy isdecimal
         (run [GClose; Chr (is_char DOT); Plus isspace] opens groups)
         pos (ds ++ DOT :: d :: rest) = None.
Proof.
  intros Hds Hd. revert pos. induction ds as [| c ds IH]; intros pos.
  - simpl. destruct opens; simpl; rewrite (decimal_not_space d Hd); reflexivity.
  - simpl in Hds. apply andb_prop in Hds as [Hc Hds].
    simpl. rewrite Hc, (IH Hds).
    destruct opens; simpl; rewrite (decimal_not_dot c Hc); reflexivity.
Qed.

Lemma dotted_label_not_paragraph_start (ds : str) (d : char) (rest : str) :
  ds <> [] ->
  forallb isdecimal ds = true ->
  isdecimal d = true ->
  rmatch PARA_START_RE (ds ++ DOT :: d :: rest) = None.
Proof.
  intros Hne Hds Hd. destruct ds as [| c ds]; [congruence |].
  simpl in Hds. apply andb_prop in Hds as [Hc Hds].
  assert (E : run PARA_START_RE [] [] 0%nat ((c :: ds) ++ DOT :: d :: rest) =
              greedy isdecimal
                (run [GClose; Chr (is_char DOT); Plus isspace] [0%nat] [])
                1%nat (ds ++ DOT :: d :: rest)).
  { unfold PARA_START_RE. simpl.
    rewrite (decimal_not_space c Hc), Hc. reflexivity. }
  unfold rmatch, at_pos. rewrite E.
  rewrite greedy_decimal_dot_decimal by assumption. reflexivity.
Qed.

(** C10: a block of body size (at least 8.5 pt, below 12.5 pt) whose text
    starts with digits, a period and a digit, as "1.2 Scope" does, is not
    a paragraph start: the pattern wants white space after the period.
    The block opens no record and leaves the heading context alone; it is
    appended to the buffer when a paragraph is in flight and dropped
    otherwise. *)
Theorem dotted_label_is_continuation
    (printed : Z) (st : state) (b : tblock)
    (ds : str) (d : char) (rest : str) :
  (FOOTNOTE_MAX_PT <= max_size b)%Q ->
  (max_size b < HEADING_MIN_PT)%Q ->
  text b = ds ++ DOT :: d :: rest ->
  ds <> [] ->
  forallb isdecimal ds = true ->
  isdecimal d = true ->
  rmatch PARA_START_RE (text b) = None
  /\ V3.process_block printed st b =
       match cur_para st with
       | Some p =>
           State (results st) (title st) (section st) (subsection st)
                 (chapter_id st) (Some p) (buf st ++ [text b])
       | None => st
       end.
Proof.
  intros Hlo Hhi Htxt Hne Hds Hd.
  assert (Hre : rmatch PARA_START_RE (text b) = None).
  { rewrite Htxt. apply dotted_label_not_paragraph_start; assumption. }
  split; [exact Hre |].
  unfold V3.process_block.
  rewrite (below_heading_not_title b Hhi).
  rewrite (Qle_bool_false _ _ Hhi), (Qlt_bool_false _ _ Hlo).
  assert (Htab : looks_like_table_heading (text b) = false).
  { rewrite Htxt. destruct ds as [| c ds]; [congruence |].
    simpl in Hds. apply andb_prop in Hds as [Hc _].
    apply decimal_not_table_heading. exact Hc. }
  rewrite Htab. simpl.
  unfold paragraph_or_continuation. rewrite Hre.
  destruct (cur_para st); reflexivity.
Qed.

(** ** Headings *)

Lemma heading_rule_silent (b : tblock) :
  is_title b = false -> is_heading b = false ->
  (if Qle_bool HEADING_MIN_PT (max_size b)
   then V3.heading_match (text b) else None) = None.
Proof.
  unfold is_heading. intros -> H. simpl in H.
  destruct (Qle_bool HEADING_MIN_PT (max_size b)); [| reflexivity].
  simpl in H. apply bool_decide_eq_false in H.
  destruct (V3.heading_match (text b)); [| reflexivity].
  exfalso. apply H. discriminate.
Qed.

Lemma rule_flags (b : tblock) :
  (is_paragraph_start b = true \/ is_continuation b = true) ->
  is_title b = false /\ is_heading b = false /\
  Qlt_bool (max_size b) FOOTNOTE_MAX_PT
    || looks_like_table_heading (text b) = false.
Proof.
  unfold is_paragraph_start, is_continuation, is_discarded.
  intros H.
  assert (H' : negb (is_title b) && negb (is_heading b)
               && negb (negb (is_title b) && negb (is_heading b)
                        && (Qlt_bool (max_size b) FOOTNOTE_MAX_PT
                            || looks_like_table_heading (text b))) = true).
  { destruct H as [H | H]; apply andb_prop in H as [H _]; exact H. }
  destruct (is_title b); [discriminate |].
  destruct (is_heading b); [discriminate |].
  simpl in H'. apply negb_true_iff in H'. auto.
Qed.

Lemma continuation_block_appends
    (printed : Z) (st : state) (c : tblock) (p : para) :
  is_continuation c = true ->
  cur_para st = Some p ->
  V3.process_block printed st c =
    State (results st) (title st) (section st) (subsection st)
          (chapter_id st) (Some p) (buf st ++ [text c]).
Proof.
  intros Hc Hp.
  destruct (rule_flags c (or_intror Hc)) as (Ht & Hh & Hd).
  unfold V3.process_block. rewrite Ht, (heading_rule_silent c Ht Hh), Hd.
  unfold is_continuation in Hc. apply andb_prop in Hc as [_ Hc].
  apply negb_true_iff in Hc. unfold paragraph_or_continuation.
  destruct (rmatch PARA_START_RE (text c)); [discriminate |].
  rewrite Hp. reflexivity.
Qed.

Lemma continuation_blocks_append
    (printed : Z) (cs : list tblock) :
  Forall (fun c => is_continuation c = true) cs ->
  forall (st : state) (p : para),
    cur_para st = Some p ->
    V3.process_blocks printed st cs =
      State (results st) (title st) (section st) (subsection st)
            (chapter_id st) (Some p) (buf st ++ map text cs).
Proof.
  unfold V3.process_blocks.
  induction 1 as [| c cs Hc _ IH]; intros st p Hp; simpl.
  - rewrite app_nil_r, <- Hp. destruct st; reflexivity.
  - rewrite (continuation_block_appends printed st c p Hc Hp).
    erewrite IH by (simpl; reflexivity).
    simpl. rewrite <- app_assoc. reflexivity.
Qed.

(** C1, as the program has it: a block on which the heading rule fires
    sets chapter id, section and subsection and nothing else; the paragraph
    in flight, its buffer and the emitted records are unchanged, and the
    continuation blocks read directly after the heading are appended, in
    order, to that same paragraph. *)
Theorem heading_keeps_paragraph_in_flight
    (printed : Z) (st : state) (b : tblock) :
  is_heading b = true ->
  exists cid : str,
    V3.heading_match (text b) = Some cid
    /\ V3.process_block printed st b =
         State (results st) (title st) (opt_or_NA (title st)) (text b)
               (Some cid) (cur_para st) (buf st)
    /\ forall (cs : list tblock) (p : para),
         Forall (fun c => is_continuation c = true) cs ->
         cur_para st = Some p ->
         V3.process_blocks printed (V3.process_block printed st b) cs =
           State (results st) (title st) (opt_or_NA (title st)) (text b)
                 (Some cid) (Some p) (buf st ++ map text cs).
Proof.
  unfold is_heading. intros H.
  apply andb_prop in H as [H Hm]. apply andb_prop in H as [Ht Hsz].
  apply negb_true_iff in Ht. apply bool_decide_eq_true in Hm.
  destruct (V3.heading_match (text b)) as [cid |] eqn:E; [| congruence].
  exists cid. split; [reflexivity |].
  assert (Hstep : V3.process_block printed st b =
                  State (results st) (title st) (opt_or_NA (title st)) (text b)
                        (Some cid) (cur_para st) (buf st)).
  { unfold V3.process_block. rewrite Ht, Hsz, E. reflexivity. }
  split; [exact Hstep |].
  intros cs p Hcs Hp. rewrite Hstep.
  erewrite (continuation_blocks_append printed cs Hcs) by exact Hp.
  reflexivity.
Qed.

(** ** Reading a match back from the matcher *)

Lemma greedy_inv (p : char -> bool) (k : cont) (s : str) :
  forall (pos : nat) (r : result),
    greedy p k pos s = Some r ->
    exists n : nat,
      forallb p (take n s) = true /\ k (pos + n)%nat (drop n s) = Some r.
Proof.
  induction s as [| c s IH]; intros pos r H.
  - exists 0%nat. rewrite Nat.add_0_r. split; [reflexivity | exact H].
  - simpl in H. destruct (p c) eqn:Hp.
    + destruct (greedy p k (S pos) s) as [r0 |] eqn:Hg.
      * injection H as <-. destruct (IH _ _ Hg) as (n & Hall & Hk).
        exists (S n). simpl. rewrite Hp, Hall.
        rewrite Nat.add_succ_r. split; [reflexivity | exact Hk].
      * exists 0%nat. rewrite Nat.add_0_r. split; [reflexivity | exact H].
    + exists 0%nat. rewrite Nat.add_0_r. split; [reflexivity | exact H].
Qed.

Lemma lazy_inv (p : char -> bool) (k : cont) (s : str) :
  forall (pos : nat) (r : result),
    lazy p k pos s = Some r ->
    exists n : nat,
      forallb p (take n s) = true /\ k (pos + n)%nat (drop n s) = Some r.
Proof.
  induction s as [| c s IH]; intros pos r H.
  - simpl in H. exists 0%nat. rewrite Nat.add_0_r.
    destruct (k pos []) eqn:Hk; [| discriminate].
    split; [reflexivity | simpl; congruence].
  - simpl in H. destruct (k pos (c :: s)) as [r0 |] eqn:Hk.
    + exists 0%nat. rewrite Nat.add_0_r.
      split; [reflexivity | simpl; congruence].
    + destruct (p c) eqn:Hp; [| discriminate].
      destruct (IH _ _ H) as (n & Hall & Hk').
      exists (S n). simpl. rewrite Hp, Hall.
      rewrite Nat.add_succ_r. split; [reflexivity | exact Hk'].
Qed.

Lemma run_chr_inv (p : char -> bool) (re : pattern)
    (opens : list nat) (groups : list (nat * nat))
    (pos : nat) (s : str) (r : result) :
  run (Chr p :: re) opens groups pos s = Some r ->
  exists (c : char) (s' : str),
    s = c :: s' /\ p c = true /\ run re opens groups (S pos) s' = Some r.
Proof.
  simpl. destruct s as [| c s']; [discriminate |].
  destruct (p c) eqn:Hp; [| discriminate].
  intros H. exists c, s'. auto.
Qed.

Lemma run_plus_inv (p : char -> bool) (re : pattern)
    (opens : list nat) (groups : list (nat * nat))
    (pos : nat) (s : str) (r : result) :
  run (Plus p :: re) opens groups pos s = Some r ->
  exists (c : char) (s' : str) (n : nat),
    s = c :: s' /\ p c = true /\ forallb p (take n s') = true /\
    run re opens groups (S pos + n)%nat (drop n s') = Some r.
Proof.
  simpl. destruct s as [| c s']; [discriminate |].
  destruct (p c) eqn:Hp; [| discriminate].
  intros H. apply greedy_inv in H as (n & Hall & Hk).
  exists c, s', n. auto.
Qed.

Lemma run_chars_inv (l : str) (re : pattern)
    (opens : list nat) (groups : list (nat * nat)) :
  forall (pos : nat) (s : str) (r : result),
    run (chars l ++ re) opens groups pos s = Some r ->
    exists s' : str,
      s = l ++ s' /\ run re opens groups (pos + length l)%nat s' = Some r.
Proof.
  induction l as [| a l IH]; intros pos s r H.
  - exists s. simpl. rewrite Nat.add_0_r. auto.
  - change (chars (a :: l) ++ re) with (Chr (is_char a) :: (chars l ++ re)) in H.
    apply run_chr_inv in H as (c & s' & -> & Hc & H).
    apply N.eqb_eq in Hc. subst c.
    destruct (IH _ _ _ H) as (s'' & -> & H').
    exists s''. simpl. rewrite Nat.add_succ_r. auto.
Qed.

Lemma drop_step (raw s : str) (pos n : nat) :
  drop pos raw = s -> drop (pos + n) raw = drop n s.
Proof. intros <-. rewrite drop_drop. reflexivity. Qed.

Lemma drop_cons_step (raw s : str) (c : char) (pos : nat) :
  drop pos raw = c :: s -> drop (S pos) raw = s.
Proof.
  intros H. rewrite <- Nat.add_1_r. rewrite (drop_step _ _ _ 1%nat H).
  reflexivity.
Qed.

Lemma search_from_inv (re : pattern) (raw : str) (m : mobj) (s : str) :
  forall pos : nat,
    drop pos raw = s ->
    search_from re pos s = Some m ->
    exists pos' : nat, at_pos re pos' (drop pos' raw) = Some m.
Proof.
  induction s as [| c s IH]; intros pos Hs H; simpl in H.
  - destruct (at_pos re pos []) eqn:E; [| discriminate].
    exists pos. rewrite Hs. congruence.
  - destruct (at_pos re pos (c :: s)) eqn:E.
    + exists pos. rewrite Hs. congruence.
    + apply (IH (S pos)); [| exact H].
      eapply drop_cons_step. exact Hs.
Qed.

(** The same, along a text [raw] read from position [pos]. *)

Lemma skip_chr (raw : str) (p : char -> bool) (re : pattern)
    (opens : list nat) (groups : list (nat * nat)) (pos : nat) (r : result) :
  run (Chr p :: re) opens groups pos (drop pos raw) = Some r ->
  run re opens groups (S pos) (drop (S pos) raw) = Some r.
Proof.
  intros H. apply run_chr_inv in H as (c & s' & E & _ & H).
  rewrite (drop_cons_step _ _ _ _ E). exact H.
Qed.

Lemma skip_plus (raw : str) (p : char -> bool) (re : pattern)
    (opens : list nat) (groups : list (nat * nat)) (pos : nat) (r : result) :
  run (Plus p :: re) opens groups pos (drop pos raw) = Some r ->
  exists (n : nat) (c : char) (ds : str),
    take (S n) (drop pos raw) = c :: ds /\
    p c = true /\ forallb p ds = true /\
    run re opens groups (S pos + n)%nat (drop (S pos + n) raw) = Some r.
Proof.
  intros H. apply run_plus_inv in H as (c & s' & n & E & Hc & Hds & H).
  exists n, c, (take n s').
  rewrite (drop_step raw s' (S pos) n (drop_cons_step _ _ _ _ E)).
  rewrite E. simpl. auto.
Qed.

Lemma skip_star (raw : str) (p : char -> bool) (re : pattern)
    (opens : list nat) (groups : list (nat * nat)) (pos : nat) (r : result) :
  run (Star p :: re) opens groups pos (drop pos raw) = Some r ->
  exists pos' : nat, run re opens groups pos' (drop pos' raw) = Some r.
Proof.
  intros H. apply greedy_inv in H as (n & _ & H).
  exists (pos + n)%nat. rewrite (drop_step raw _ pos n eq_refl). exact H.
Qed.

Lemma skip_lazy (raw : str) (p : char -> bool) (re : pattern)
    (opens : list nat) (groups : list (nat * nat)) (pos : nat) (r : result) :
  run (LazyStar p :: re) opens groups pos (drop pos raw) = Some r ->
  exists pos' : nat, run re opens groups pos' (drop pos' raw) = Some r.
Proof.
  intros H. apply lazy_inv in H as (n & _ & H).
  exists (pos + n)%nat. rewrite (drop_step raw _ pos n eq_refl). exact H.
Qed.

Lemma skip_chars (raw : str) (l : str) (re : pattern)
    (opens : list nat) (groups : list (nat * nat)) (pos : nat) (r : result) :
  run (chars l ++ re) opens groups pos (drop pos raw) = Some r ->
  exists pos' : nat, run re opens groups pos' (drop pos' raw) = Some r.
Proof.
  intros H. apply run_chars_inv in H as (s' & E & H).
  exists (pos + length l)%nat.
  rewrite (drop_step raw _ pos (length l) eq_refl), E, drop_app_length.
  exact H.
Qed.

(** ** The running header *)

(** Where [HEADER_NUM_RE] matches, its group is a run of decimal digits that
    is not empty. *)
Lemma header_group_decimal (raw : str) (pos e : nat) (gs : list (nat * nat)) :
  run HEADER_NUM_RE [] [] pos (drop pos raw) = Some (e, gs) ->
  exists (c : char) (ds : str),
    group (MObj pos e gs) 1 raw = c :: ds /\
    isdecimal c = true /\ forallb isdecimal ds = true.
Proof.
  unfold HEADER_NUM_RE, group. cbn [m_groups]. intros H.
  apply skip_chars in H as (p0 & H). clear pos.
  apply skip_plus in H as (n1 & _ & _ & _ & _ & _ & H).
  apply skip_chr in H.
  apply skip_plus in H as (n2 & _ & _ & _ & _ & _ & H).
  apply skip_lazy in H as (p3 & H).
  apply skip_plus in H as (n4 & _ & _ & _ & _ & _ & H).
  remember (S p3 + n4)%nat as a eqn:Ea. clear Ea p0 n1 n2 p3 n4.
  change (run (GOpen :: ?re) [] [] a ?s) with (run re [a] [] a s) in H.
  apply skip_plus in H as (n & c & ds & E & Hc & Hds & H).
  change (run (GClose :: ?re) [a] [] ?p ?s)
    with (run re [] [(a, p)] p s) in H.
  apply skip_star in H as (p5 & H).
  simpl in H. destruct (at_eol _); [| discriminate].
  injection H as _ <-.
  exists c, ds. split; [| auto].
  unfold slice. simpl.
  replace (S (a + n) - a)%nat with (S n) by lia. exact E.
Qed.

Lemma int_digits_defined (ds : str) :
  forall acc : Z,
    forallb isdecimal ds = true -> exists z : Z, int_digits acc ds = Some z.
Proof.
  induction ds as [| c ds IH]; intros acc H; simpl.
  - eauto.
  - simpl in H. apply andb_prop in H as [-> H]. apply IH. exact H.
Qed.

(** [int] on a run of decimal digits that is not empty: their value when
    the run is within the limit, [ValueError] when it is longer. *)
Lemma int_within_limit (ds : str) :
  ds <> [] -> forallb isdecimal ds = true ->
  exists n : Z,
    int_digits 0 ds = Some n /\
    int ds = if (length ds <=? INT_MAX_STR_DIGITS)%nat then Some n else None.
Proof.
  intros Hne Hds. destruct (int_digits_defined ds 0%Z Hds) as [n Hn].
  exists n. split; [exact Hn |].
  unfold int. destruct ds as [| c ds]; [congruence |].
  rewrite Hn. reflexivity.
Qed.

Lemma header_search_decimal (raw : str) (m : mobj) :
  search HEADER_NUM_RE raw = Some m ->
  group m 1 raw <> [] /\ forallb isdecimal (group m 1 raw) = true.
Proof.
  intros H. apply (search_from_inv _ raw) in H as (pos & H); [| reflexivity].
  unfold at_pos in H.
  destruct (run HEADER_NUM_RE [] [] pos (drop pos raw)) as [[e gs] |] eqn:E;
    [| discriminate].
  injection H as <-.
  destruct (header_group_decimal _ _ _ _ E) as (c & ds & -> & Hc & Hds).
  split; [discriminate |]. simpl. rewrite Hc. exact Hds.
Qed.

(** The resolver reads the first text block in which the header pattern
    matches, and falls back when there is none. *)
Lemma printed_in_blocks_header (bs : list pblock) (fallback : Z) :
  match header_block bs with
  | Some b =>
      exists m : mobj,
        search HEADER_NUM_RE (raw_text b) = Some m /\
        printed_in_blocks bs fallback = int (group m 1 (raw_text b))
  | None => printed_in_blocks bs fallback = Some fallback
  end.
Proof.
  unfold header_block. induction bs as [| b bs IH]; simpl.
  - reflexivity.
  - destruct (block_type b =? 0)%Z; simpl; [| exact IH].
    destruct (search HEADER_NUM_RE (raw_text b)) as [m |] eqn:E; simpl.
    + exists m. auto.
    + exact IH.
Qed.

(** C8, as stated, fails: on a page whose running header ends in a number
    of 4301 digits the header pattern matches and [int] raises on its
    group, so the resolver raises where the claim has it return. *)
Lemma long_header_number_raises :
  is_Some (header_block (page_blocks long_number_page)) /\
  get_printed_page_number long_number_page = None.
Proof.
  split; [vm_compute; eexists; reflexivity | vm_compute; reflexivity].
Qed.

(** C8, as the program has it: on a page with a text block in which the
    header pattern matches, the resolver hands the group of the first such
    block to [int]; the group is a run of decimal digits that is not empty,
    and the resolver returns its value when the run has at most 4300 digits
    and raises when it has more.  On a page with no such block it returns
    the physical index plus one. *)
Theorem printed_page_number_within_limit (pg : page) :
  match header_block (page_blocks pg) with
  | Some b =>
      exists (m : mobj) (n : Z),
        search HEADER_NUM_RE (raw_text b) = Some m /\
        group m 1 (raw_text b) <> [] /\
        forallb isdecimal (group m 1 (raw_text b)) = true /\
        int_digits 0 (group m 1 (raw_text b)) = Some n /\
        get_printed_page_number pg =
          if (length (group m 1 (raw_text b)) <=? INT_MAX_STR_DIGITS)%nat
          then Some n else None
  | None => get_printed_page_number pg = Some (Z.of_nat (number pg) + 1)%Z
  end.
Proof.
  unfold get_printed_page_number.
  pose proof (printed_in_blocks_header (page_blocks pg)
                (Z.of_nat (number pg) + 1)%Z) as H.
  destruct (header_block (page_blocks pg)) as [b |]; [| exact H].
  destruct H as (m & Hm & Hp).
  destruct (header_search_decimal _ _ Hm) as [Hne Hds].
  destruct (int_within_limit _ Hne Hds) as (n & Hn & Hint).
  exists m, n. rewrite Hp. auto.
Qed.

(** ** The page index *)

Lemma printed_of_Some (i : nat) (bs : list pblock) (q : Z) :
  get_printed_page_number (Page i bs) = Some q -> printed_of i bs = q.
Proof. unfold printed_of. intros ->. reflexivity. Qed.

(** A page without a running header resolves to its index plus one. *)
Lemma get_printed_fallback (i : nat) (bs : list pblock) :
  header_block bs = None ->
  get_printed_page_number (Page i bs) = Some (Z.of_nat i + 1)%Z.
Proof.
  intros Hh. unfold get_printed_page_number. simpl.
  pose proof (printed_in_blocks_header bs (Z.of_nat i + 1)%Z) as H.
  rewrite Hh in H. exact H.
Qed.

(** Where the index is built, every page has resolved, and the index is
    [index_of]. *)
Lemma build_index_inv (pages : list (list pblock)) :
  forall (i0 : nat) (m printed_to_index : gmap Z nat),
    build_index pages i0 m = Some printed_to_index ->
    printed_to_index = index_of pages i0 m /\
    forall (j : nat) (bs : list pblock),
      pages !! j = Some bs ->
      get_printed_page_number (Page (i0 + j) bs)
      = Some (printed_of (i0 + j) bs).
Proof.
  induction pages as [| bs rest IH]; intros i0 m idx H; simpl in H.
  - injection H as <-. split; [reflexivity |]. intros j b Hl. discriminate.
  - destruct (get_printed_page_number (Page i0 bs)) as [n |] eqn:E;
      [| discriminate].
    apply IH in H as [-> Hall]. simpl.
    rewrite (printed_of_Some _ _ _ E). split; [reflexivity |].
    intros [| j] b Hl.
    + simpl in Hl. injection Hl as <-. rewrite Nat.add_0_r.
      rewrite (printed_of_Some _ _ _ E). exact E.
    + replace (i0 + S j)%nat with (S i0 + j)%nat by lia.
      apply Hall. exact Hl.
Qed.

(** The index is built when every page resolves. *)
Lemma build_index_defined (pages : list (list pblock)) :
  forall (i0 : nat) (m : gmap Z nat),
    (forall (j : nat) (bs : list pblock),
        pages !! j = Some bs ->
        is_Some (get_printed_page_number (Page (i0 + j) bs))) ->
    build_index pages i0 m = Some (index_of pages i0 m).
Proof.
  induction pages as [| bs rest IH]; intros i0 m H; simpl.
  - reflexivity.
  - destruct (H 0%nat bs eq_refl) as [n E]. rewrite Nat.add_0_r in E.
    rewrite E, (printed_of_Some _ _ _ E). apply IH.
    intros j b Hl. replace (S i0 + j)%nat with (i0 + S j)%nat by lia.
    apply (H (S j)). exact Hl.
Qed.

(** Building the index raises as soon as one page does not resolve. *)
Lemma build_index_raises (pages : list (list pblock)) :
  forall (i0 : nat) (m : gmap Z nat) (j : nat) (bs : list pblock),
    pages !! j = Some bs ->
    get_printed_page_number (Page (i0 + j) bs) = None ->
    build_index pages i0 m = None.
Proof.
  intros i0 m j bs Hl Hn.
  destruct (build_index pages i0 m) as [idx |] eqn:E; [| reflexivity].
  apply build_index_inv in E as [_ Hall].
  rewrite (Hall j bs Hl) in Hn. discriminate.
Qed.

(** Building the index depends on the pages through what they resolve to
    only. *)
Lemma build_index_ext (pages pages' : list (list pblock)) :
  forall (i0 : nat) (m : gmap Z nat),
    length pages = length pages' ->
    (forall (j : nat) (bs bs' : list pblock),
        pages !! j = Some bs -> pages' !! j = Some bs' ->
        get_printed_page_number (Page (i0 + j) bs)
        = get_printed_page_number (Page (i0 + j) bs')) ->
    build_index pages i0 m = build_index pages' i0 m.
Proof.
  revert pages'. induction pages as [| bs rest IH];
    intros [| bs' rest'] i0 m Hlen H; simpl in *; try discriminate.
  - reflexivity.
  - pose proof (H 0%nat bs bs' eq_refl eq_refl) as H0.
    rewrite Nat.add_0_r in H0. rewrite H0.
    destruct (get_printed_page_number (Page i0 bs')); [| reflexivity].
    apply IH; [lia |].
    intros j b b' Hl Hl'.
    replace (S i0 + j)%nat with (i0 + S j)%nat by lia.
    apply (H (S j)); assumption.
Qed.

(** Replacing a page by one that resolves to the same number leaves the
    index as it is. *)
Lemma build_index_insert
    (doc : document) (i : nat) (bs bs' : list pblock) (m : gmap Z nat) :
  doc !! i = Some bs ->
  get_printed_page_number (Page i bs')
  = get_printed_page_number (Page i bs) ->
  build_index (<[i := bs']> doc) 0 m = build_index doc 0 m.
Proof.
  intros Hi Hp. apply build_index_ext; [apply length_insert |].
  intros j b b' Hl Hl'. simpl.
  destruct (decide (i = j)) as [<- | NE].
  - rewrite list_lookup_insert_eq in Hl by (eapply lookup_lt_Some; exact Hi).
    rewrite Hi in Hl'. congruence.
  - rewrite list_lookup_insert_ne in Hl by exact NE. congruence.
Qed.

(** An entry of the index is the last page with that printed number, or an
    entry the map had before, no page having that number. *)
Lemma index_of_sound (pages : list (list pblock)) :
  forall (i0 : nat) (m : gmap Z nat) (q : Z) (k : nat),
    index_of pages i0 m !! q = Some k ->
    (exists (j : nat) (bs : list pblock),
        k = (i0 + j)%nat /\ pages !! j = Some bs /\ printed_of k bs = q /\
        forall (j' : nat) (bs' : list pblock),
          (j < j')%nat -> pages !! j' = Some bs' ->
          printed_of (i0 + j') bs' <> q)
    \/ (m !! q = Some k /\
        forall (j' : nat) (bs' : list pblock),
          pages !! j' = Some bs' -> printed_of (i0 + j') bs' <> q).
Proof.
  induction pages as [| bs rest IH]; intros i0 m q k H; simpl in H.
  - right. split; [exact H |]. intros j' bs' Hl. discriminate.
  - apply IH in H as [(j & bs1 & -> & Hl & Hp & Hlast) | (Hm & Hnone)].
    + left. exists (S j), bs1.
      replace (i0 + S j)%nat with (S i0 + j)%nat by lia.
      repeat split; try assumption.
      intros [| j'] bs' Hlt Hl'; [lia |].
      replace (i0 + S j')%nat with (S i0 + j')%nat by lia.
      apply (Hlast j' bs'); [lia | exact Hl'].
    + destruct (decide (printed_of i0 bs = q)) as [E | NE].
      * rewrite E, lookup_insert_eq in Hm. injection Hm as <-.
        left. exists 0%nat, bs. rewrite Nat.add_0_r.
        repeat split; try assumption; try reflexivity.
        intros [| j'] bs' Hlt Hl'; [lia |].
        replace (i0 + S j')%nat with (S i0 + j')%nat by lia.
        apply (Hnone j' bs'). exact Hl'.
      * rewrite lookup_insert_ne in Hm by exact NE.
        right. split; [exact Hm |].
        intros [| j'] bs' Hl'.
        -- simpl in Hl'. injection Hl' as <-. rewrite Nat.add_0_r. exact NE.
        -- replace (i0 + S j')%nat with (S i0 + j')%nat by lia.
           apply (Hnone j' bs'). exact Hl'.
Qed.

Lemma index_of_defined (pages : list (list pblock)) :
  forall (i0 : nat) (m : gmap Z nat) (q : Z),
    (exists (j : nat) (bs : list pblock),
        pages !! j = Some bs /\ printed_of (i0 + j) bs = q)
    \/ is_Some (m !! q) ->
    is_Some (index_of pages i0 m !! q).
Proof.
  induction pages as [| bs rest IH]; intros i0 m q H; simpl.
  - destruct H as [(j & bs & Hl & _) | H]; [discriminate | exact H].
  - apply IH. destruct H as [([| j] & bs1 & Hl & Hp) | H].
    + simpl in Hl. injection Hl as <-. rewrite Nat.add_0_r in Hp.
      right. rewrite Hp, lookup_insert_eq. eauto.
    + left. exists j, bs1. split; [exact Hl |].
      replace (S i0 + j)%nat with (i0 + S j)%nat by lia. exact Hp.
    + right. rewrite lookup_insert. destruct (decide _); eauto.
Qed.

Lemma fold_left_pointwise {A B : Type} (f g : A -> B -> A) (l : list B) :
  (forall a b, f a b = g a b) ->
  forall a : A, fold_left f l a = fold_left g l a.
Proof.
  intros H. induction l as [| b l IH]; intros a; simpl.
  - reflexivity.
  - rewrite H. apply IH.
Qed.

(** C9: when two pages resolve to the same printed number, the index, where
    it is built, sends that number to the last page that has it, no printed
    number leads to the earlier page, and the index and the output are the
    same whatever blocks the earlier page carries under that printed
    number. *)
Theorem colliding_pages_last_wins
    (doc : document) (i j : nat) (bs_i bs_j : list pblock) (p : Z)
    (printed_to_index : gmap Z nat) :
  (i < j)%nat ->
  doc !! i = Some bs_i ->
  doc !! j = Some bs_j ->
  get_printed_page_number (Page i bs_i) = Some p ->
  get_printed_page_number (Page j bs_j) = Some p ->
  build_index doc 0 ∅ = Some printed_to_index ->
  (exists (k : nat) (bs_k : list pblock),
      printed_to_index !! p = Some k /\
      (j <= k)%nat /\
      doc !! k = Some bs_k /\
      get_printed_page_number (Page k bs_k) = Some p /\
      (forall (k' : nat) (bs' : list pblock),
          doc !! k' = Some bs' ->
          get_printed_page_number (Page k' bs') = Some p -> (k' <= k)%nat) /\
      (forall q : Z, printed_to_index !! q <> Some i))
  /\ (forall (bs' : list pblock) (s e : Z),
         get_printed_page_number (Page i bs') = Some p ->
         build_index (<[i := bs']> doc) 0 ∅ = Some printed_to_index /\
         extract_json (<[i := bs']> doc) s e = extract_json doc s e).
Proof.
  intros Hij Hi Hj Hpi Hpj Hidx.
  pose proof Hidx as Hinv. apply build_index_inv in Hinv as [-> Hall].
  pose proof (printed_of_Some _ _ _ Hpi) as Hqi.
  pose proof (printed_of_Some _ _ _ Hpj) as Hqj.
  (* no entry of the index is the earlier page *)
  assert (Hnot : forall q : Z, index_of doc 0 ∅ !! q <> Some i).
  { intros q Hq.
    apply index_of_sound in Hq as [(j0 & bs0 & E & Hl & Hp & Hlast) | (Hm & _)].
    - simpl in E. subst j0. rewrite Hi in Hl. injection Hl as <-.
      apply (Hlast j bs_j Hij Hj). simpl. congruence.
    - rewrite lookup_empty in Hm. discriminate. }
  split.
  - destruct (index_of_defined doc 0 ∅ p) as [k Hk].
    { left. exists j, bs_j. auto. }
    pose proof Hk as Hk'.
    apply index_of_sound in Hk' as [(j0 & bs0 & E & Hl & Hp & Hlast) | (Hm & _)];
      [| rewrite lookup_empty in Hm; discriminate].
    simpl in E. subst j0.
    exists k, bs0.
    split; [exact Hk |].
    assert (Hmax : forall (k' : nat) (bs' : list pblock),
               doc !! k' = Some bs' -> printed_of k' bs' = p -> (k' <= k)%nat).
    { intros k' bs' Hl' Hp'.
      destruct (le_lt_dec k' k) as [Hle | Hlt]; [exact Hle |].
      exfalso. exact (Hlast k' bs' Hlt Hl' Hp'). }
    split; [exact (Hmax j bs_j Hj Hqj) |].
    split; [exact Hl |].
    split; [rewrite <- Hp; exact (Hall k bs0 Hl) |].
    split; [| exact Hnot].
    intros k' bs' Hl' Hp'.
    exact (Hmax k' bs' Hl' (printed_of_Some _ _ _ Hp')).
  - intros bs' s e Hp'.
    assert (Eidx : build_index (<[i := bs']> doc) 0 ∅
                   = Some (index_of doc 0 ∅)).
    { rewrite (build_index_insert doc i bs_i bs' ∅ Hi); [exact Hidx |].
      congruence. }
    split; [exact Eidx |].
    unfold extract_json, extract. rewrite Eidx, Hidx.
    f_equal. f_equal. f_equal.
    apply fold_left_pointwise. intros st q.
    unfold process_page.
    destruct (index_of doc 0 ∅ !! q) as [k |] eqn:Hq; [| reflexivity].
    unfold load_page. rewrite list_lookup_insert_ne; [reflexivity |].
    intros <-. exact (Hnot q Hq).
Qed.

(** ** str.replace and re.sub, character by character *)

Lemma startswith_elem (old s : str) (x : char) :
  startswith old s = true -> x ∈ old -> x ∈ s.
Proof.
  revert s. induction old as [| a old IH]; intros s H Hx.
  - inversion Hx.
  - destruct s as [| c s]; [discriminate |].
    simpl in H. apply andb_prop in H as [Hac H].
    apply N.eqb_eq in Hac. subst c.
    apply elem_of_cons in Hx as [-> | Hx].
    + left.
    + right. apply IH; assumption.
Qed.

Lemma replace_from_elem (old new : str) (x : char) (s : str) :
  forall k : nat, x ∈ replace_from old new k s -> x ∈ new \/ x ∈ s.
Proof.
  induction s as [| c s IH]; intros k H; simpl in H.
  - inversion H.
  - destruct k as [| k].
    + destruct (startswith old (c :: s)).
      * apply elem_of_app in H as [H | H]; [left; exact H |].
        destruct (IH _ H) as [? | ?]; [left | right; right]; assumption.
      * apply elem_of_cons in H as [-> | H]; [right; left |].
        destruct (IH _ H) as [? | ?]; [left | right; right]; assumption.
    + destruct (IH _ H) as [? | ?]; [left | right; right]; assumption.
Qed.

(** Replacing a single character leaves no occurrence of it. *)
Lemma replace_char_absent (a : char) (new : str) (s : str) :
  a ∉ new -> forall k : nat, a ∉ replace_from [a] new k s.
Proof.
  intros Hnew. induction s as [| c s IH]; intros k H; simpl in H.
  - inversion H.
  - destruct k as [| k]; [| exact (IH _ H)].
    destruct (N.eqb_spec a c) as [E | NE]; simpl in H.
    + apply elem_of_app in H as [H | H]; [exact (Hnew H) | exact (IH _ H)].
    + apply elem_of_cons in H as [E | H]; [exact (NE E) | exact (IH _ H)].
Qed.

(** Nothing is replaced in a text that lacks a character of [old]. *)
Lemma replace_absent (old new : str) (x : char) (s : str) :
  x ∈ old -> x ∉ s -> replace old new s = s.
Proof.
  intros Hold. unfold replace. induction s as [| c s IH]; intros Hs; simpl.
  - reflexivity.
  - destruct (startswith old (c :: s)) eqn:E.
    + exfalso. apply Hs. exact (startswith_elem _ _ _ E Hold).
    + f_equal. apply IH. intros H. apply Hs. right. exact H.
Qed.

Lemma sub_from_elem (re : pattern) (repl : str) (x : char) (s : str) :
  forall k pos : nat, x ∈ sub_from re repl k pos s -> x ∈ repl \/ x ∈ s.
Proof.
  induction s as [| c s IH]; intros k pos H; simpl in H.
  - destruct k; [| inversion H].
    destruct (at_pos re pos []); [left; exact H | inversion H].
  - destruct k as [| k].
    + destruct (at_pos re pos (c :: s)) as [m |].
      * destruct (Nat.eqb (m_end m) pos).
        -- apply elem_of_app in H as [H | H]; [left; exact H |].
           apply elem_of_cons in H as [-> | H]; [right; left |].
           destruct (IH _ _ H) as [? | ?]; [left | right; right]; assumption.
        -- apply elem_of_app in H as [H | H]; [left; exact H |].
           destruct (IH _ _ H) as [? | ?]; [left | right; right]; assumption.
      * apply elem_of_cons in H as [-> | H]; [right; left |].
        destruct (IH _ _ H) as [? | ?]; [left | right; right]; assumption.
    + destruct (IH _ _ H) as [? | ?]; [left | right; right]; assumption.
Qed.

(** Where the pattern matches nowhere, nothing is substituted. *)
Lemma sub_from_no_match (re : pattern) (repl : str) (s : str) :
  forall pos : nat,
    search_from re pos s = None -> sub_from re repl 0 pos s = s.
Proof.
  induction s as [| c s IH]; intros pos H; simpl in *.
  - destruct (at_pos re pos []); [discriminate | reflexivity].
  - destruct (at_pos re pos (c :: s)); [discriminate |].
    f_equal. apply IH. exact H.
Qed.

(** ** Collapsing white space *)

Lemma greedy_to_end (p : char -> bool) (groups : list (nat * nat)) (s : str) :
  forall pos : nat,
    greedy p (run [] [] groups) pos s = Some ((pos + run_len p s)%nat, groups).
Proof.
  induction s as [| c s IH]; intros pos; simpl.
  - rewrite Nat.add_0_r. reflexivity.
  - destruct (p c).
    + rewrite IH. rewrite Nat.add_succ_r. reflexivity.
    + rewrite Nat.add_0_r. reflexivity.
Qed.

Lemma at_pos_ws_run (pos : nat) (c : char) (s : str) :
  at_pos WS_RUN_RE pos (c :: s) =
  if isspace c then Some (MObj pos (S pos + run_len isspace s) []) else None.
Proof.
  unfold at_pos, WS_RUN_RE.
  change (run [Plus isspace] [] [] pos (c :: s))
    with (if isspace c
          then greedy isspace (run [] [] []) (S pos) s else None).
  destruct (isspace c); [| reflexivity].
  rewrite greedy_to_end. reflexivity.
Qed.

Lemma squeeze_after_space (s : str) :
  run_len isspace s = 0%nat -> squeeze true s = squeeze false s.
Proof.
  destruct s as [| c s]; simpl; [reflexivity |].
  destruct (isspace c); [discriminate | reflexivity].
Qed.

Lemma sub_ws_run_squeeze (s : str) :
  forall pos : nat,
    sub_from WS_RUN_RE [SPACE] 0 pos s = squeeze false s /\
    sub_from WS_RUN_RE [SPACE] (run_len isspace s) pos s = squeeze true s.
Proof.
  induction s as [| c s IH]; intros pos.
  - split; reflexivity.
  - destruct (IH (S pos)) as [IH0 IHr].
    assert (E0 : sub_from WS_RUN_RE [SPACE] 0 pos (c :: s)
                 = squeeze false (c :: s)).
    { cbn [sub_from]. rewrite at_pos_ws_run. simpl squeeze.
      destruct (isspace c).
      - cbn [m_end]. replace (Nat.eqb (S pos + run_len isspace s) pos) with false
          by (symmetry; apply Nat.eqb_neq; lia).
        replace (Nat.pred (S pos + run_len isspace s - pos))
          with (run_len isspace s) by lia.
        rewrite IHr. reflexivity.
      - rewrite IH0. reflexivity. }
    split; [exact E0 |].
    destruct (isspace c) eqn:Hc.
    + simpl. rewrite Hc. exact IHr.
    + replace (run_len isspace (c :: s)) with 0%nat by (simpl; rewrite Hc; reflexivity).
      rewrite E0. simpl. rewrite Hc. reflexivity.
Qed.

Lemma squeeze_single_spaced (s : str) :
  forall b : bool, single_spaced b (squeeze b s) = true.
Proof.
  induction s as [| c s IH]; intros b; simpl.
  - reflexivity.
  - destruct (isspace c) eqn:Hc.
    + destruct b; [apply IH |].
      simpl. rewrite (IH true). reflexivity.
    + simpl. rewrite Hc. apply IH.
Qed.

Lemma single_spaced_squeeze (s : str) :
  forall b : bool, single_spaced b s = true -> squeeze b s = s.
Proof.
  induction s as [| c s IH]; intros b H; simpl in *.
  - reflexivity.
  - destruct (isspace c).
    + apply andb_prop in H as [H H2]. apply andb_prop in H as [Hc Hb].
      apply N.eqb_eq in Hc. destruct b; [discriminate |].
      rewrite (IH true H2). congruence.
    + rewrite (IH false H). reflexivity.
Qed.

Lemma single_spaced_weaken (s : str) :
  single_spaced true s = true -> single_spaced false s = true.
Proof.
  destruct s as [| c s]; simpl; [reflexivity |].
  destruct (isspace c); [| trivial].
  rewrite andb_false_r. discriminate.
Qed.

Lemma single_spaced_suffix (w s : str) :
  forall b : bool,
    single_spaced b (w ++ s) = true -> single_spaced false s = true.
Proof.
  induction w as [| c w IH]; intros b H; simpl in H.
  - destruct b; [apply single_spaced_weaken |]; exact H.
  - destruct (isspace c).
    + apply andb_prop in H as [_ H]. exact (IH _ H).
    + exact (IH _ H).
Qed.

Lemma single_spaced_prefix (s w : str) :
  forall b : bool,
    single_spaced b (s ++ w) = true -> single_spaced b s = true.
Proof.
  induction s as [| c s IH]; intros b H; simpl in *.
  - reflexivity.
  - destruct (isspace c).
    + apply andb_prop in H as [H1 H]. rewrite H1. exact (IH _ H).
    + exact (IH _ H).
Qed.

(** ** str.strip *)

Lemma lstrip_suffix (s : str) : exists w : str, s = w ++ lstrip s.
Proof.
  induction s as [| c s [w IH]]; simpl.
  - exists []. reflexivity.
  - destruct (isspace c).
    + exists (c :: w). simpl. congruence.
    + exists []. reflexivity.
Qed.

Lemma rstrip_prefix (s : str) : exists w : str, s = rstrip s ++ w.
Proof.
  unfold rstrip. destruct (lstrip_suffix (rev s)) as [w E].
  exists (rev w). rewrite <- rev_app_distr, <- E, rev_involutive. reflexivity.
Qed.

Lemma lstrip_head (s : str) :
  match lstrip s with
  | [] => True
  | c :: _ => isspace c = false
  end.
Proof.
  induction s as [| c s IH]; simpl; [exact I |].
  destruct (isspace c) eqn:Hc; [exact IH | exact Hc].
Qed.

Lemma lstrip_fixed (s : str) :
  match s with [] => True | c :: _ => isspace c = false end -> lstrip s = s.
Proof.
  destruct s as [| c s]; simpl; [reflexivity |]. intros ->. reflexivity.
Qed.

Lemma lstrip_idempotent (s : str) : lstrip (lstrip s) = lstrip s.
Proof. apply lstrip_fixed. apply lstrip_head. Qed.

Lemma rstrip_idempotent (s : str) : rstrip (rstrip s) = rstrip s.
Proof.
  unfold rstrip. rewrite rev_involutive, lstrip_idempotent. reflexivity.
Qed.

Lemma lstrip_strip (s : str) : lstrip (strip s) = strip s.
Proof.
  unfold strip. apply lstrip_fixed.
  destruct (rstrip_prefix (lstrip s)) as [w E].
  pose proof (lstrip_head s) as H.
  destruct (rstrip (lstrip s)) as [| c r]; [exact I |].
  rewrite E in H. exact H.
Qed.

Lemma strip_fixed (s : str) : strip (strip s) = strip s.
Proof.
  unfold strip at 1. rewrite lstrip_strip.
  unfold strip. apply rstrip_idempotent.
Qed.

Lemma strip_elem (x : char) (s : str) : x ∈ strip s -> x ∈ s.
Proof.
  unfold strip. intros H.
  destruct (lstrip_suffix s) as [w1 E1].
  destruct (rstrip_prefix (lstrip s)) as [w2 E2].
  rewrite E1, E2. apply elem_of_app. right. apply elem_of_app. left. exact H.
Qed.

Lemma strip_single_spaced (s : str) (b : bool) :
  single_spaced b s = true -> single_spaced false (strip s) = true.
Proof.
  unfold strip. intros H.
  destruct (lstrip_suffix s) as [w1 E1].
  destruct (rstrip_prefix (lstrip s)) as [w2 E2].
  rewrite E1 in H. apply single_spaced_suffix in H.
  rewrite E2 in H. exact (single_spaced_prefix _ _ _ H).
Qed.

(** ** The shape of a normalized text *)

Lemma normalize_text_eq (s : str) :
  normalize_text s =
  strip (squeeze false
           (sub HEADER_STRIP_RE [SPACE]
                (replace [NEWLINE] [SPACE]
                         (replace [HYPHEN; NEWLINE] []
                                  (replace [SOFT_HYPHEN] [] s))))).
Proof.
  unfold normalize_text, sub.
  rewrite (proj1 (sub_ws_run_squeeze _ 0%nat)). reflexivity.
Qed.

Lemma normalize_no_soft_hyphen (s : str) : SOFT_HYPHEN ∉ normalize_text s.
Proof.
  rewrite normalize_text_eq. intros H.
  apply strip_elem in H.
  rewrite <- (proj1 (sub_ws_run_squeeze _ 0%nat)) in H.
  apply sub_from_elem in H as [H | H];
    [apply list_elem_of_singleton in H; discriminate |].
  apply sub_from_elem in H as [H | H];
    [apply list_elem_of_singleton in H; discriminate |].
  apply replace_from_elem in H as [H | H];
    [apply list_elem_of_singleton in H; discriminate |].
  apply replace_from_elem in H as [H | H]; [inversion H |].
  revert H. apply replace_char_absent. intros H. inversion H.
Qed.

Lemma normalize_no_newline (s : str) : NEWLINE ∉ normalize_text s.
Proof.
  rewrite normalize_text_eq. intros H.
  apply strip_elem in H.
  rewrite <- (proj1 (sub_ws_run_squeeze _ 0%nat)) in H.
  apply sub_from_elem in H as [H | H];
    [apply list_elem_of_singleton in H; discriminate |].
  apply sub_from_elem in H as [H | H];
    [apply list_elem_of_singleton in H; discriminate |].
  revert H. apply replace_char_absent.
  intros H. apply list_elem_of_singleton in H. discriminate.
Qed.

Lemma normalize_single_spaced (s : str) :
  single_spaced false (normalize_text s) = true.
Proof.
  rewrite normalize_text_eq.
  eapply strip_single_spaced. apply squeeze_single_spaced.
Qed.

Lemma normalize_stripped (s : str) :
  strip (normalize_text s) = normalize_text s.
Proof. rewrite normalize_text_eq. apply strip_fixed. Qed.

(** A normalized text in which the header pattern matches nowhere is a
    fixed point of the normalizer. *)
Lemma normalize_idempotent_header_free (s : str) :
  search HEADER_STRIP_RE (normalize_text s) = None ->
  normalize_text (normalize_text s) = normalize_text s.
Proof.
  intros Hfree.
  rewrite (normalize_text_eq (normalize_text s)).
  rewrite (replace_absent [SOFT_HYPHEN] [] SOFT_HYPHEN)
    by (try apply normalize_no_soft_hyphen; left).
  rewrite (replace_absent [HYPHEN; NEWLINE] [] NEWLINE)
    by (try apply normalize_no_newline; right; left).
  rewrite (replace_absent [NEWLINE] [SPACE] NEWLINE)
    by (try apply normalize_no_newline; left).
  unfold sub. rewrite (sub_from_no_match _ _ _ _ Hfree).
  rewrite (single_spaced_squeeze _ _ (normalize_single_spaced s)).
  apply normalize_stripped.
Qed.

(** C4, as the program has it: the empty string is normalized to itself,
    and a second normalization changes nothing whenever the header
    pattern matches nowhere in the normalized text. *)
Theorem normalize_idempotent_without_header :
  normalize_text [] = [] /\
  forall s : str,
    search HEADER_STRIP_RE (normalize_text s) = None ->
    normalize_text (normalize_text s) = normalize_text s.
Proof.
  split; [reflexivity | exact normalize_idempotent_header_free].
Qed.

(** ** Texts without a dash *)

Lemma header_strip_needs_dash (raw : str) (pos : nat) (r : result) :
  run HEADER_STRIP_RE [] [] pos (drop pos raw) = Some r -> EN_DASH ∈ raw.
Proof.
  unfold HEADER_STRIP_RE. intros H.
  apply skip_chars in H as (p0 & H).
  apply skip_plus in H as (n1 & _ & _ & _ & _ & _ & H).
  apply run_chr_inv in H as (c & s' & E & Hc & _).
  apply N.eqb_eq in Hc. subst c.
  apply (subseteq_drop (S p0 + n1) raw). rewrite E. left.
Qed.

Lemma no_dash_no_header (t : str) :
  EN_DASH ∉ t -> search HEADER_STRIP_RE t = None.
Proof.
  intros Hd. destruct (search HEADER_STRIP_RE t) as [m |] eqn:E;
    [| reflexivity].
  exfalso. apply Hd.
  apply (search_from_inv _ t) in E as (pos & E); [| reflexivity].
  unfold at_pos in E.
  destruct (run HEADER_STRIP_RE [] [] pos (drop pos t)) as [r |] eqn:Er;
    [| discriminate].
  exact (header_strip_needs_dash _ _ _ Er).
Qed.

(** The characters of a normalized text come from the text, but for the
    spaces. *)
Lemma normalize_elem (x : char) (s : str) :
  x ∈ normalize_text s -> x = SPACE \/ x ∈ s.
Proof.
  rewrite normalize_text_eq. intros H.
  apply strip_elem in H.
  rewrite <- (proj1 (sub_ws_run_squeeze _ 0%nat)) in H.
  apply sub_from_elem in H as [H | H];
    [apply list_elem_of_singleton in H; auto |].
  apply sub_from_elem in H as [H | H];
    [apply list_elem_of_singleton in H; auto |].
  apply replace_from_elem in H as [H | H];
    [apply list_elem_of_singleton in H; auto |].
  apply replace_from_elem in H as [H | H]; [inversion H |].
  apply replace_from_elem in H as [H | H]; [inversion H |].
  auto.
Qed.

(** A sufficient condition on the input itself: no en dash, hence no
    running header, before or after normalization. *)
Corollary normalize_idempotent_no_dash (s : str) :
  EN_DASH ∉ s ->
  normalize_text (normalize_text s) = normalize_text s.
Proof.
  intros Hd. apply normalize_idempotent_header_free.
  apply no_dash_no_header. intros H.
  apply normalize_elem in H as [H | H]; [discriminate | exact (Hd H)].
Qed.

(** ** The theorems at work on the example blocks *)

Lemma title_resets_heading_context_witness :
  ((TITLE_MIN_PT <= max_size title_block)%Q /\
   (length (text title_block) < 200)%nat /\
   lower (text title_block) <> lit "contents") /\
  (V3.process_block 9 state_in_paragraph title_block =
     State (results state_in_paragraph) (Some (text title_block)) NA NA None
           (cur_para state_in_paragraph) (buf state_in_paragraph)
   /\ forall tr : list (Z * tblock),
        Forall (fun pb => is_heading (snd pb) = false) tr ->
        section (run_blocks tr (V3.process_block 9 state_in_paragraph
                                                 title_block)) = NA /\
        subsection (run_blocks tr (V3.process_block 9 state_in_paragraph
                                                    title_block)) = NA).
Proof.
  assert (H1 : (TITLE_MIN_PT <= max_size title_block)%Q)
    by (vm_compute; discriminate).
  assert (H2 : (length (text title_block) < 200)%nat) by (vm_compute; lia).
  assert (H3 : lower (text title_block) <> lit "contents")
    by (vm_compute; discriminate).
  split; [auto |].
  exact (title_resets_heading_context 9 state_in_paragraph title_block
           H1 H2 H3).
Defined.

Lemma footnote_block_is_inert_witness :
  (max_size footnote_block < FOOTNOTE_MAX_PT)%Q /\
  (V3.process_block 9 state_in_paragraph footnote_block = state_in_paragraph
   /\ forall (before after : list tblock) (st0 : state),
        V3.process_blocks 9 st0 (before ++ footnote_block :: after) =
        V3.process_blocks 9 st0 (before ++ after)).
Proof.
  assert (H : (max_size footnote_block < FOOTNOTE_MAX_PT)%Q)
    by (vm_compute; reflexivity).
  split; [exact H |].
  exact (footnote_block_is_inert 9 state_in_paragraph footnote_block H).
Defined.

(** The footnote between two continuation blocks: the paragraph is emitted
    once, at the end, without the footnote text. *)
Example footnote_between_continuations :
  results (flush (V3.process_blocks 9 state_in_paragraph
                    [TBlock 1 (lit "should document") 11;
                     footnote_block; body_block])) =
  [Para (lit "Foreword") (lit "Foreword") (lit "1.1 Purpose") (lit "3") 9
        (lit "The institution should document its models.")].
Proof. vm_compute. reflexivity. Qed.

Lemma dotted_label_is_continuation_witness :
  ((FOOTNOTE_MAX_PT <= max_size dotted_body_block)%Q /\
   (max_size dotted_body_block < HEADING_MIN_PT)%Q /\
   text dotted_body_block = lit "1" ++ DOT :: 50 :: lit " Scope") /\
  (rmatch PARA_START_RE (text dotted_body_block) = None /\
   V3.process_block 9 state_in_paragraph dotted_body_block =
     match cur_para state_in_paragraph with
     | Some p =>
         State (results state_in_paragraph) (title state_in_paragraph)
               (section state_in_paragraph) (subsection state_in_paragraph)
               (chapter_id state_in_paragraph) (Some p)
               (buf state_in_paragraph ++ [text dotted_body_block])
     | None => state_in_paragraph
     end).
Proof.
  assert (H1 : (FOOTNOTE_MAX_PT <= max_size dotted_body_block)%Q)
    by (vm_compute; discriminate).
  assert (H2 : (max_size dotted_body_block < HEADING_MIN_PT)%Q)
    by (vm_compute; reflexivity).
  assert (H3 : text dotted_body_block = lit "1" ++ DOT :: 50 :: lit " Scope")
    by reflexivity.
  split; [auto |].
  refine (dotted_label_is_continuation 9 state_in_paragraph dotted_body_block
            (lit "1") 50 (lit " Scope") H1 H2 H3 _ _ _).
  - discriminate.
  - reflexivity.
  - reflexivity.
Defined.

Lemma heading_keeps_paragraph_in_flight_witness :
  is_heading heading_block = true /\
  exists cid : str,
    V3.heading_match (text heading_block) = Some cid
    /\ V3.process_block 9 state_in_paragraph heading_block =
         State (results state_in_paragraph) (title state_in_paragraph)
               (opt_or_NA (title state_in_paragraph)) (text heading_block)
               (Some cid) (cur_para state_in_paragraph)
               (buf state_in_paragraph)
    /\ forall (cs : list tblock) (p : para),
         Forall (fun c => is_continuation c = true) cs ->
         cur_para state_in_paragraph = Some p ->
         V3.process_blocks 9
           (V3.process_block 9 state_in_paragraph heading_block) cs =
           State (results state_in_paragraph) (title state_in_paragraph)
                 (opt_or_NA (title state_in_paragraph)) (text heading_block)
                 (Some cid) (Some p)
                 (buf state_in_paragraph ++ map text cs).
Proof.
  assert (H : is_heading heading_block = true) by (vm_compute; reflexivity).
  split; [exact H |].
  exact (heading_keeps_paragraph_in_flight 9 state_in_paragraph heading_block H).
Defined.

Lemma normalize_idempotent_without_header_witness :
  search HEADER_STRIP_RE (normalize_text text_with_header) = None /\
  normalize_text (normalize_text text_with_header) =
  normalize_text text_with_header.
Proof.
  assert (H : search HEADER_STRIP_RE (normalize_text text_with_header) = None)
    by (vm_compute; reflexivity).
  split; [exact H |].
  exact (proj2 normalize_idempotent_without_header text_with_header H).
Defined.

Example normalize_text_with_header :
  normalize_text text_with_header = lit "The scope of the guide".
Proof. vm_compute. reflexivity. Qed.

Lemma colliding_pages_last_wins_witness :
  (exists (k : nat) (bs_k : list pblock),
      colliding_index !! 2%Z = Some k /\
      (1 <= k)%nat /\
      colliding_doc !! k = Some bs_k /\
      get_printed_page_number (Page k bs_k) = Some 2%Z /\
      (forall (k' : nat) (bs' : list pblock),
          colliding_doc !! k' = Some bs' ->
          get_printed_page_number (Page k' bs') = Some 2%Z -> (k' <= k)%nat) /\
      (forall q : Z, colliding_index !! q <> Some 0%nat))
  /\ (forall (bs' : list pblock) (s e : Z),
         get_printed_page_number (Page 0 bs') = Some 2%Z ->
         build_index (<[0%nat := bs']> colliding_doc) 0 ∅
         = Some colliding_index /\
         extract_json (<[0%nat := bs']> colliding_doc) s e =
         extract_json colliding_doc s e).
Proof.
  refine (colliding_pages_last_wins colliding_doc 0 1 _ _ 2 colliding_index
            _ _ _ _ _ _).
  - lia.
  - reflexivity.
  - reflexivity.
  - vm_compute. reflexivity.
  - vm_compute. reflexivity.
  - vm_compute. reflexivity.
Defined.

(** Only the later of the two colliding pages reaches the output. *)
Example colliding_doc_output :
  extract_json colliding_doc 1 5 =
  Some [Para NA NA NA (lit "1") 2 (lit "Shown")].
Proof. vm_compute. reflexivity. Qed.

(** ** The matcher on characteristic inputs *)

(** The lazy [.*?] of the header pattern gives way to the last number of
    the line: it is the only one the anchored rest can match. *)
Example header_takes_last_number :
  (fun raw => option_map (fun m => (m_start m, m_end m, group m 1 raw))
                         (search HEADER_NUM_RE raw))
    (lit "xx ECB guide to internal models " ++ [EN_DASH]
     ++ lit " Foreword 12 34  ")
  = Some (3%nat, 50%nat, lit "34").
Proof. vm_compute. reflexivity. Qed.

(** Without the anchor the lazy repetition stops at the first number. *)
Example header_strip_stops_early :
  sub HEADER_STRIP_RE [SPACE]
      (lit "a ECB guide to internal models " ++ [EN_DASH]
       ++ lit " Foreword 12 34 b")
  = lit "a  34 b".
Proof. vm_compute. reflexivity. Qed.

Example paragraph_start_groups :
  (fun txt => option_map (fun m => (group m 1 txt, slice_from (m_end m) txt))
                         (rmatch PARA_START_RE txt))
    (lit "12.  Institutions should")
  = Some (lit "12", lit "Institutions should").
Proof. vm_compute. reflexivity. Qed.

(** A numeric section heading needs more than two words. *)
Example short_numeric_heading_rejected :
  V3.heading_match (lit "3 Data") = None /\
  V3.heading_match (lit "3 Data governance") = Some (lit "3") /\
  V3.heading_match (lit "A.1 Scope") = Some (lit "A").
Proof. vm_compute. auto. Qed.

(** [int] reads the decimal digits of any script, here the Arabic-Indic
    digits one and two, and so does the paragraph-start pattern. *)
Example int_arabic_indic : int [1633; 1634] = Some 12%Z.
Proof. vm_compute. reflexivity. Qed.

Example paragraph_start_arabic_indic :
  (fun m => group m 1 ([1633; 1634] ++ lit ". Alpha"))
    <$> rmatch PARA_START_RE ([1633; 1634] ++ lit ". Alpha")
  = Some [1633; 1634].
Proof. vm_compute. reflexivity. Qed.

(** [int] converts 4300 digits and raises on 4301, leading zeros
    included. *)
Example int_digit_limit :
  int (repeat 48 4300) = Some 0%Z /\ int (repeat 48 4301) = None.
Proof. split; vm_compute; reflexivity. Qed.

Example replace_does_not_overlap :
  replace (lit "aa") (lit "b") (lit "aaaaa") = lit "bba".
Proof. vm_compute. reflexivity. Qed.

Example split_on_white_space :
  str_split (lit "  3   Data governance ")
  = [lit "3"; lit "Data"; lit "governance"].
Proof. vm_compute. reflexivity. Qed.

(** * Further properties of the extractor *)

(** ** The shape of a normalized text *)

Lemma single_spaced_only_spaces (t : str) :
  forall b : bool,
    single_spaced b t = true ->
    forall c : char, c ∈ t -> isspace c = true -> c = SPACE.
Proof.
  induction t as [| a t IH]; intros b H c Hc Hsp.
  - inversion Hc.
  - simpl in H. apply elem_of_cons in Hc as [-> | Hc].
    + rewrite Hsp in H. apply andb_prop in H as [H _].
      apply andb_prop in H as [H _]. apply N.eqb_eq in H. exact H.
    + destruct (isspace a).
      * apply andb_prop in H as [_ H]. exact (IH _ H c Hc Hsp).
      * exact (IH _ H c Hc Hsp).
Qed.

Lemma single_spaced_no_double (l r : str) :
  forall b : bool, single_spaced b (l ++ SPACE :: SPACE :: r) = false.
Proof.
  induction l as [| a l IH]; intros b; simpl.
  - rewrite andb_false_r. reflexivity.
  - destruct (isspace a); [| apply IH].
    rewrite IH. apply andb_false_r.
Qed.

Lemma rstrip_last (s l : str) (c : char) :
  rstrip s = l ++ [c] -> isspace c = false.
Proof.
  unfold rstrip. intros H.
  apply (f_equal (@rev char)) in H.
  rewrite rev_involutive, rev_app_distr in H. simpl in H.
  pose proof (lstrip_head (rev s)) as Hh. rewrite H in Hh. exact Hh.
Qed.

Lemma normalize_head_not_space (s : str) (c : char) (r : str) :
  normalize_text s = c :: r -> isspace c = false.
Proof.
  intros E. pose proof (normalize_stripped s) as H.
  unfold strip in H.
  pose proof (lstrip_strip (normalize_text s)) as H'.
  unfold strip in H'. rewrite H in H'. rewrite E in H'. simpl in H'.
  destruct (isspace c) eqn:Hc; [| reflexivity].
  exfalso. pose proof (lstrip_suffix r) as [w Hw].
  apply (f_equal (@length char)) in H'. rewrite Hw in H' at 2.
  simpl in H'. rewrite length_app in H'. lia.
Qed.

Lemma normalize_last_not_space (s : str) (l : str) (c : char) :
  normalize_text s = l ++ [c] -> isspace c = false.
Proof.
  intros E. rewrite normalize_text_eq in E. unfold strip in E.
  exact (rstrip_last _ _ _ E).
Qed.

(** The normalizer never returns a line feed or a soft hyphen; the only
    white space it returns is the space character, never two in a row,
    never at the start and never at the end. *)
Theorem normalize_text_shape (s : str) :
  (NEWLINE ∉ normalize_text s) /\
  (SOFT_HYPHEN ∉ normalize_text s) /\
  (forall c : char,
      c ∈ normalize_text s -> isspace c = true -> c = SPACE) /\
  (forall l r : str, normalize_text s <> l ++ SPACE :: SPACE :: r) /\
  (forall (c : char) (r : str),
      normalize_text s = c :: r -> isspace c = false) /\
  (forall (l : str) (c : char),
      normalize_text s = l ++ [c] -> isspace c = false).
Proof.
  split; [apply normalize_no_newline |].
  split; [apply normalize_no_soft_hyphen |].
  split; [apply (single_spaced_only_spaces _ false),
            normalize_single_spaced |].
  split.
  { intros l r E. pose proof (normalize_single_spaced s) as H.
    rewrite E, single_spaced_no_double in H. discriminate. }
  split; [apply normalize_head_not_space | apply normalize_last_not_space].
Qed.

(** ** Blank texts *)

Lemma lstrip_all_space (s : str) :
  (forall c : char, c ∈ s -> isspace c = true) -> lstrip s = [].
Proof.
  induction s as [| a s IH]; intros H; simpl; [reflexivity |].
  rewrite (H a) by left. apply IH. intros c Hc. apply H. right. exact Hc.
Qed.

Lemma squeeze_elem (x : char) (s : str) :
  forall b : bool, x ∈ squeeze b s -> x = SPACE \/ x ∈ s.
Proof.
  induction s as [| a s IH]; intros b H; simpl in H.
  - inversion H.
  - destruct (isspace a).
    + destruct b.
      * destruct (IH _ H) as [? | ?]; [left | right; right]; assumption.
      * apply elem_of_cons in H as [-> | H]; [left; reflexivity |].
        destruct (IH _ H) as [? | ?]; [left | right; right]; assumption.
    + apply elem_of_cons in H as [-> | H]; [right; left |].
      destruct (IH _ H) as [? | ?]; [left | right; right]; assumption.
Qed.

(** A text made of white space and soft hyphens only, the empty text
    among them, is normalized to the empty text. *)
Theorem normalize_text_blank (s : str) :
  (forall c : char, c ∈ s -> isspace c = true \/ c = SOFT_HYPHEN) ->
  normalize_text s = [].
Proof.
  intros Hs. rewrite normalize_text_eq. unfold strip.
  rewrite lstrip_all_space; [reflexivity |].
  intros c Hc.
  apply squeeze_elem in Hc as [-> | Hc]; [reflexivity |].
  apply sub_from_elem in Hc as [Hc | Hc];
    [apply list_elem_of_singleton in Hc; subst c; reflexivity |].
  apply replace_from_elem in Hc as [Hc | Hc];
    [apply list_elem_of_singleton in Hc; subst c; reflexivity |].
  apply replace_from_elem in Hc as [Hc | Hc]; [inversion Hc |].
  pose proof Hc as Hc'.
  apply replace_from_elem in Hc' as [Hc' | Hc']; [inversion Hc' |].
  destruct (Hs c Hc') as [H | ->]; [exact H |].
  exfalso. revert Hc. apply replace_char_absent. intros H. inversion H.
Qed.

Lemma normalize_text_blank_witness :
  (forall c : char,
      c ∈ [SPACE; NEWLINE; SOFT_HYPHEN; 9] ->
      isspace c = true \/ c = SOFT_HYPHEN) /\
  normalize_text [SPACE; NEWLINE; SOFT_HYPHEN; 9] = [].
Proof.
  assert (H : forall c : char,
             c ∈ [SPACE; NEWLINE; SOFT_HYPHEN; 9] ->
             isspace c = true \/ c = SOFT_HYPHEN).
  { intros c Hc. repeat (apply elem_of_cons in Hc as [-> | Hc]);
      [left; reflexivity | left; reflexivity | right; reflexivity
      | left; reflexivity | inversion Hc]. }
  split; [exact H |].
  exact (normalize_text_blank [SPACE; NEWLINE; SOFT_HYPHEN; 9] H).
Defined.

(** ** collect_blocks *)

(** [sizes] of a block, as [collect_blocks] lists them. *)
Lemma raw_text_no_span (blk : pblock) :
  concat (block_lines blk) = [] -> raw_text blk = [].
Proof. unfold raw_text. intros ->. reflexivity. Qed.

Lemma collect_from_spec (bs : list pblock) :
  forall (bi : nat) (b : tblock),
    b ∈ collect_from bi bs <->
    exists (j : nat) (blk : pblock),
      bs !! j = Some blk /\ idx b = (bi + j)%nat /\
      block_type blk = 0%Z /\
      text b = normalize_text (raw_text blk) /\ text b <> [] /\
      max_size b = max_size_of (map span_size (concat (block_lines blk))).
Proof.
  induction bs as [| blk bs IH]; intros bi b; simpl.
  - split; [intros H; inversion H | intros (j & ? & H & _); discriminate].
  - assert (Hrest :
      (exists (j : nat) (blk0 : pblock),
          bs !! j = Some blk0 /\ idx b = (S bi + j)%nat /\
          block_type blk0 = 0%Z /\
          text b = normalize_text (raw_text blk0) /\ text b <> [] /\
          max_size b = max_size_of (map span_size (concat (block_lines blk0))))
      -> exists (j : nat) (blk0 : pblock),
          (blk :: bs) !! j = Some blk0 /\ idx b = (bi + j)%nat /\
          block_type blk0 = 0%Z /\
          text b = normalize_text (raw_text blk0) /\ text b <> [] /\
          max_size b = max_size_of (map span_size (concat (block_lines blk0)))).
    { intros (j & blk0 & Hl & Hi & Hrest). exists (S j), blk0.
      split; [exact Hl |]. split; [lia | exact Hrest]. }
    destruct (Z.eqb_spec (block_type blk) 0) as [Ht | Ht]; simpl.
    + destruct (normalize_text (raw_text blk)) as [| c t] eqn:En.
      * rewrite IH. split; [exact Hrest |].
        intros ([| j] & blk0 & Hl & Hi & Hty & Htx & Hne & Hm).
        -- simpl in Hl. injection Hl as <-. congruence.
        -- exists j, blk0. split; [exact Hl |]. split; [lia | auto].
      * rewrite elem_of_cons, IH. split.
        -- intros [-> | H]; [| exact (Hrest H)].
           exists 0%nat, blk. simpl. rewrite Nat.add_0_r, En.
           repeat split; auto; discriminate.
        -- intros ([| j] & blk0 & Hl & Hi & Hty & Htx & Hne & Hm).
           ++ simpl in Hl. injection Hl as <-. left.
              destruct b as [i t' m]. simpl in *.
              rewrite Nat.add_0_r in Hi. congruence.
           ++ right. exists j, blk0. split; [exact Hl |]. split; [lia | auto].
    + rewrite IH. split; [exact Hrest |].
      intros ([| j] & blk0 & Hl & Hi & Hty & Hrest').
      * simpl in Hl. injection Hl as <-. contradiction.
      * exists j, blk0. split; [exact Hl |]. split; [lia | auto].
Qed.

Lemma collect_from_sorted (bs : list pblock) :
  forall (bi i j : nat) (b1 b2 : tblock),
    collect_from bi bs !! i = Some b1 ->
    collect_from bi bs !! j = Some b2 ->
    (i < j)%nat -> (bi <= idx b1)%nat /\ (idx b1 < idx b2)%nat.
Proof.
  induction bs as [| blk bs IH]; intros bi i j b1 b2 H1 H2 Hij; simpl in *.
  - discriminate.
  - assert (Hshift : forall i j b1 b2,
               collect_from (S bi) bs !! i = Some b1 ->
               collect_from (S bi) bs !! j = Some b2 ->
               (i < j)%nat -> (bi <= idx b1)%nat /\ (idx b1 < idx b2)%nat).
    { intros i' j' c1 c2 G1 G2 G.
      destruct (IH (S bi) i' j' c1 c2 G1 G2 G). lia. }
    destruct (negb (block_type blk =? 0)%Z); [eauto |].
    destruct (normalize_text (raw_text blk)) as [| c t]; [eauto |].
    destruct i as [| i]; destruct j as [| j]; simpl in *; try lia.
    + injection H1 as <-. simpl. split; [lia |].
      assert (Hb2 : b2 ∈ collect_from (S bi) bs)
        by (apply list_elem_of_lookup; eauto).
      apply collect_from_spec in Hb2 as (k & ? & _ & Hk & _). lia.
    + apply (Hshift i j); [assumption | assumption | lia].
Qed.

(** The collected blocks are exactly the text blocks of the page whose
    normalized text is not empty, each with the position it has on the
    page, and they come in the order of the page. *)
Theorem collect_blocks_spec (pg : page) :
  (forall b : tblock,
      b ∈ collect_blocks pg <->
      exists blk : pblock,
        page_blocks pg !! idx b = Some blk /\
        block_type blk = 0%Z /\
        text b = normalize_text (raw_text blk) /\ text b <> [] /\
        max_size b = max_size_of (map span_size (concat (block_lines blk))))
  /\ (forall (i j : nat) (b1 b2 : tblock),
         collect_blocks pg !! i = Some b1 ->
         collect_blocks pg !! j = Some b2 ->
         (i < j)%nat -> (idx b1 < idx b2)%nat).
Proof.
  unfold collect_blocks. split.
  - intros b. rewrite collect_from_spec. split.
    + intros (j & blk & Hl & Hi & H). exists blk. simpl in Hi.
      rewrite Hi. auto.
    + intros (blk & Hl & H). exists (idx b), blk. auto.
  - intros i j b1 b2 H1 H2 Hij.
    exact (proj2 (collect_from_sorted _ _ _ _ _ _ H1 H2 Hij)).
Qed.

(** ** max(sizes) *)

Lemma max_from_spec (l : list Q) :
  forall cur : Q,
    (max_from cur l = cur \/ max_from cur l ∈ l) /\
    (cur <= max_from cur l)%Q /\
    (forall x : Q, x ∈ l -> (x <= max_from cur l)%Q).
Proof.
  induction l as [| y l IH]; intros cur; simpl.
  - split; [left; reflexivity |]. split; [apply Qle_refl |].
    intros x Hx. inversion Hx.
  - destruct (IH (if Qlt_bool cur y then y else cur)) as (Hin & Hle & Hall).
    destruct (Qlt_bool cur y) eqn:E.
    + apply Qlt_bool_iff in E. split; [| split].
      * destruct Hin as [-> | Hin]; right; [left | right; exact Hin].
      * eapply Qle_trans; [apply Qlt_le_weak; exact E | exact Hle].
      * intros x Hx. apply elem_of_cons in Hx as [-> | Hx];
          [exact Hle | exact (Hall x Hx)].
    + assert (Hyc : (y <= cur)%Q).
      { unfold Qlt_bool in E. apply negb_false_iff in E.
        apply Qle_bool_iff. exact E. }
      split; [| split].
      * destruct Hin as [-> | Hin]; [left; reflexivity | right; right; exact Hin].
      * exact Hle.
      * intros x Hx. apply elem_of_cons in Hx as [-> | Hx];
          [eapply Qle_trans; [exact Hyc | exact Hle] | exact (Hall x Hx)].
Qed.

(** The size of a collected block is the size of one of the spans of its
    block, and no span of the block is larger: a collected block has at
    least one span, so the default 0.0 of an empty size list never shows. *)
Theorem collect_blocks_max_size (pg : page) (b : tblock) :
  b ∈ collect_blocks pg ->
  exists blk : pblock,
    page_blocks pg !! idx b = Some blk /\
    (exists sp : span,
        sp ∈ concat (block_lines blk) /\ max_size b = span_size sp) /\
    (forall sp : span,
        sp ∈ concat (block_lines blk) -> (span_size sp <= max_size b)%Q).
Proof.
  intros Hb. unfold collect_blocks in Hb.
  apply collect_from_spec in Hb as (j & blk & Hl & Hi & _ & Htx & Hne & Hm).
  simpl in Hi. exists blk. split; [rewrite Hi; exact Hl |].
  destruct (concat (block_lines blk)) as [| sp0 sps] eqn:Es.
  { exfalso. apply Hne. rewrite Htx, (raw_text_no_span blk Es). reflexivity. }
  simpl in Hm.
  destruct (max_from_spec (map span_size sps) (span_size sp0))
    as (Hin & Hle & Hall).
  rewrite <- Hm in Hin, Hle, Hall. split.
  - destruct Hin as [Hin | Hin].
    + exists sp0. split; [left | exact Hin].
    + apply list_elem_of_fmap in Hin as (sp & E & Hsp).
      exists sp. split; [right; exact Hsp | exact E].
  - intros sp Hsp. apply elem_of_cons in Hsp as [-> | Hsp]; [exact Hle |].
    apply Hall. apply list_elem_of_fmap. exists sp. auto.
Qed.

(** ** The page index, entry by entry *)

Lemma page_index_lookup (doc : document) (q : Z) (k : nat) :
  index_of doc 0 ∅ !! q = Some k <->
  exists bs : list pblock,
    doc !! k = Some bs /\ printed_of k bs = q /\
    forall (k' : nat) (bs' : list pblock),
      (k < k')%nat -> doc !! k' = Some bs' -> printed_of k' bs' <> q.
Proof.
  split.
  - intros H.
    apply index_of_sound in H as [(j & bs & -> & Hl & Hp & Hlast) | (Hm & _)];
      [| rewrite lookup_empty in Hm; discriminate].
    exists bs. simpl in *. auto.
  - intros (bs & Hl & Hp & Hlast).
    destruct (index_of_defined doc 0 ∅ q) as [k0 Hk0].
    { left. exists k, bs. auto. }
    pose proof Hk0 as H0.
    apply index_of_sound in H0 as [(j & bs0 & -> & Hl0 & Hp0 & Hlast0) | (Hm & _)];
      [| rewrite lookup_empty in Hm; discriminate].
    simpl in *. rewrite Hk0. f_equal.
    destruct (lt_eq_lt_dec j k) as [[Hlt | ->] | Hgt]; [| reflexivity |].
    + exfalso. exact (Hlast0 k bs Hlt Hl Hp).
    + exfalso. exact (Hlast j bs0 Hgt Hl0 Hp0).
Qed.

Lemma build_index_none (pages : list (list pblock)) :
  forall (i0 : nat) (m : gmap Z nat),
    build_index pages i0 m = None ->
    exists (j : nat) (bs : list pblock),
      pages !! j = Some bs /\
      get_printed_page_number (Page (i0 + j) bs) = None.
Proof.
  induction pages as [| bs rest IH]; intros i0 m H; simpl in H.
  - discriminate.
  - destruct (get_printed_page_number (Page i0 bs)) as [n |] eqn:E.
    + apply IH in H as (j & b & Hl & Hn). exists (S j), b.
      replace (i0 + S j)%nat with (S i0 + j)%nat by lia. auto.
    + exists 0%nat, bs. rewrite Nat.add_0_r. auto.
Qed.

(** Building the page index raises exactly when the resolver raises on
    some page.  Where it returns, every page has resolved and the index
    holds exactly one entry for each printed number some page resolves to:
    the last page with that number.  Every entry is the index of an
    existing page. *)
Theorem page_index_spec (doc : document) :
  match build_index doc 0 ∅ with
  | Some printed_to_index =>
      (forall (i : nat) (bs : list pblock),
          doc !! i = Some bs ->
          is_Some (get_printed_page_number (Page i bs))) /\
      forall (q : Z) (k : nat),
        printed_to_index !! q = Some k <->
        exists bs : list pblock,
          doc !! k = Some bs /\
          get_printed_page_number (Page k bs) = Some q /\
          forall (k' : nat) (bs' : list pblock),
            (k < k')%nat -> doc !! k' = Some bs' ->
            get_printed_page_number (Page k' bs') <> Some q
  | None =>
      exists (i : nat) (bs : list pblock),
        doc !! i = Some bs /\ get_printed_page_number (Page i bs) = None
  end.
Proof.
  destruct (build_index doc 0 ∅) as [idx |] eqn:Hidx;
    [| exact (build_index_none doc 0 ∅ Hidx)].
  apply build_index_inv in Hidx as [-> Hall]. simpl in Hall.
  split; [intros i bs Hl; rewrite (Hall i bs Hl); eauto |].
  intros q k. rewrite page_index_lookup. split.
  - intros (bs & Hl & Hp & Hlast). exists bs.
    split; [exact Hl |]. split; [rewrite (Hall k bs Hl); congruence |].
    intros k' bs' Hlt Hl' E.
    exact (Hlast k' bs' Hlt Hl' (printed_of_Some _ _ _ E)).
  - intros (bs & Hl & Hp & Hlast). exists bs.
    split; [exact Hl |]. split; [exact (printed_of_Some _ _ _ Hp) |].
    intros k' bs' Hlt Hl' E. apply (Hlast k' bs' Hlt Hl').
    rewrite (Hall k' bs' Hl'). congruence.
Qed.

Lemma printed_of_fallback (i : nat) (bs : list pblock) :
  header_block bs = None -> printed_of i bs = (Z.of_nat i + 1)%Z.
Proof.
  intros Hh. apply printed_of_Some, get_printed_fallback, Hh.
Qed.

(** When no page carries a running header, the index sends the printed
    number [i + 1] to the page [i] for every page of the document and
    holds nothing else. *)
Theorem page_index_without_headers (doc : document) :
  (forall (i : nat) (bs : list pblock),
      doc !! i = Some bs -> header_block bs = None) ->
  exists printed_to_index : gmap Z nat,
    build_index doc 0 ∅ = Some printed_to_index /\
    forall (q : Z) (k : nat),
      printed_to_index !! q = Some k <->
      q = (Z.of_nat k + 1)%Z /\ (k < length doc)%nat.
Proof.
  intros Hno. exists (index_of doc 0 ∅). split.
  { apply build_index_defined. intros j bs Hl.
    rewrite (get_printed_fallback _ bs (Hno j bs Hl)). eauto. }
  intros q k. rewrite page_index_lookup. split.
  - intros (bs & Hl & Hp & _).
    rewrite (printed_of_fallback k bs (Hno k bs Hl)) in Hp.
    split; [congruence |]. eapply lookup_lt_Some. exact Hl.
  - intros [-> Hk]. apply lookup_lt_is_Some in Hk as [bs Hl].
    exists bs. split; [exact Hl |].
    split; [apply printed_of_fallback; eauto |].
    intros k' bs' Hlt Hl'.
    rewrite (printed_of_fallback k' bs' (Hno k' bs' Hl')).
    lia.
Qed.

(** ** Printed numbers are not negative *)

Lemma int_digits_nonneg (s : str) :
  forall acc z : Z, (0 <= acc)%Z -> int_digits acc s = Some z -> (0 <= z)%Z.
Proof.
  induction s as [| c s IH]; intros acc z Hacc H; simpl in H.
  - congruence.
  - destruct (isdecimal c); [| discriminate].
    apply (IH (10 * acc + Z.of_N (digit_value c))%Z z); [lia | exact H].
Qed.

Lemma printed_in_blocks_nonneg (bs : list pblock) (fallback n : Z) :
  (0 <= fallback)%Z -> printed_in_blocks bs fallback = Some n -> (0 <= n)%Z.
Proof.
  intros Hf. induction bs as [| b bs IH]; simpl; intros H.
  - congruence.
  - destruct (negb _); [exact (IH H) |].
    destruct (search HEADER_NUM_RE (raw_text b)); [| exact (IH H)].
    unfold int in H. destruct (group _ _ _); [discriminate |].
    destruct (_ <=? _)%nat; [| discriminate].
    apply (int_digits_nonneg _ _ _ (Z.le_refl 0) H).
Qed.

Lemma printed_of_nonneg (i : nat) (bs : list pblock) :
  (0 <= printed_of i bs)%Z.
Proof.
  unfold printed_of.
  destruct (get_printed_page_number (Page i bs)) as [n |] eqn:E;
    [| simpl; lia].
  unfold get_printed_page_number in E. simpl in *.
  apply printed_in_blocks_nonneg in E; [exact E | lia].
Qed.

(** ** Invariants of a run of the driving loop *)

Section ExtractInvariant.

Variable process_blocks : Z -> state -> list tblock -> state.
Variable Inv : Z -> state -> Prop.
Variables start_page end_page : Z.

Hypothesis Inv_init : forall hi : Z, Inv hi init_state.
Hypothesis Inv_mono :
  forall (hi hi' : Z) (st : state), (hi <= hi')%Z -> Inv hi st -> Inv hi' st.
Hypothesis Inv_step :
  forall (printed : Z) (st : state) (bs : list tblock),
    (start_page <= printed <= end_page)%Z ->
    Inv printed st -> Inv printed (process_blocks printed st bs).
Hypothesis Inv_flush :
  forall (hi : Z) (st : state), Inv hi st -> Inv hi (flush st).

Lemma process_page_invariant
    (doc : document) (m : gmap Z nat) (st : state) (printed : Z) :
  (start_page <= printed <= end_page)%Z ->
  Inv printed st -> Inv printed (process_page process_blocks doc m st printed).
Proof.
  intros Hp H. unfold process_page.
  destruct (m !! printed); [| exact H].
  destruct (load_page doc n); [| exact H].
  apply Inv_step; assumption.
Qed.

Lemma fold_range_invariant (doc : document) (m : gmap Z nat) (k : nat) :
  forall (printed : Z) (st : state),
    (start_page <= printed)%Z ->
    (printed + Z.of_nat k = end_page)%Z ->
    Inv printed st ->
    Inv end_page
        (fold_left (process_page process_blocks doc m)
                   (seqZ printed (Z.of_nat (S k))) st).
Proof.
  induction k as [| k IH]; intros printed st Hlo Hhi H.
  - rewrite seqZ_cons by lia. rewrite seqZ_nil by lia. simpl.
    replace end_page with printed by lia.
    apply process_page_invariant; [lia | exact H].
  - rewrite seqZ_cons by lia.
    replace (Z.pred (Z.of_nat (S (S k)))) with (Z.of_nat (S k)) by lia.
    simpl. apply IH; [lia | lia |].
    apply (Inv_mono printed); [lia |].
    apply process_page_invariant; [lia | exact H].
Qed.

(** The records an extraction returns are those of a flushed state that
    has the invariant. *)
Lemma extract_invariant (doc : document) (out : list para) :
  extract process_blocks doc start_page end_page = Some out ->
  exists st : state,
    out = results st /\ Inv end_page st /\ cur_para st = None.
Proof.
  unfold extract. destruct (build_index doc 0 ∅) as [m |]; [| discriminate].
  intros H.
  exists (flush (fold_left (process_page process_blocks doc m)
                           (seqZ start_page (end_page + 1 - start_page))
                           init_state)).
  split; [congruence |]. split; [| reflexivity].
  apply Inv_flush.
  destruct (Z_le_gt_dec (end_page + 1 - start_page) 0) as [Hle | Hgt].
  - rewrite seqZ_nil by exact Hle. simpl. apply Inv_init.
  - replace (end_page + 1 - start_page)%Z
      with (Z.of_nat (S (Z.to_nat (end_page - start_page)))) by lia.
    apply fold_range_invariant; [lia | lia | apply Inv_init].
Qed.

End ExtractInvariant.

(** ** The paragraph number is a run of digits *)

Lemma paragraph_number_decimal (txt : str) (m : mobj) :
  rmatch PARA_START_RE txt = Some m ->
  exists (c : char) (ds : str),
    group m 1 txt = c :: ds /\
    isdecimal c = true /\ forallb isdecimal ds = true.
Proof.
  unfold rmatch, at_pos.
  destruct (run PARA_START_RE [] [] 0%nat txt) as [[e gs] |] eqn:H;
    [| discriminate].
  intros E. injection E as <-. unfold group. cbn [m_groups].
  change txt with (drop 0%nat txt) in H at 1. unfold PARA_START_RE in H.
  change (run (Bol :: ?re) [] [] 0%nat ?s) with (run re [] [] 0%nat s) in H.
  apply skip_star in H as (a & H).
  change (run (GOpen :: ?re) [] [] a ?s) with (run re [a] [] a s) in H.
  apply skip_plus in H as (n & c & ds & E & Hc & Hds & H).
  change (run (GClose :: ?re) [a] [] ?p ?s)
    with (run re [] [(a, p)] p s) in H.
  apply skip_chr in H.
  apply skip_plus in H as (n' & _ & _ & _ & _ & _ & H).
  simpl in H. injection H as _ <-.
  exists c, ds. split; [| auto].
  unfold slice. simpl.
  replace (S (a + n) - a)%nat with (S n) by lia. exact E.
Qed.

(** ** Records are well formed, their pages in range and in order *)

Lemma or_NA_not_empty (s : str) : or_NA s <> [].
Proof. destruct s; discriminate. Qed.

Lemma opt_or_NA_not_empty (o : option str) : opt_or_NA o <> [].
Proof. destruct o; [apply or_NA_not_empty | discriminate]. Qed.

Lemma records_ok_init (lo hi : Z) : records_ok lo hi init_state.
Proof.
  unfold records_ok, pages_of. simpl.
  split; [constructor |]. split; [intros ? ?; discriminate |].
  split; constructor.
Qed.

Lemma records_ok_mono (lo hi hi' : Z) (st : state) :
  (hi <= hi')%Z -> records_ok lo hi st -> records_ok lo hi' st.
Proof.
  intros Hle (H1 & H2 & H3 & H4).
  split; [exact H1 |]. split; [exact H2 |]. split; [exact H3 |].
  eapply Forall_impl; [exact H4 |]. simpl. intros x Hx. lia.
Qed.

Lemma records_ok_flush (lo hi : Z) (st : state) :
  records_ok lo hi st -> records_ok lo hi (flush st).
Proof.
  intros (H1 & H2 & H3 & H4). unfold records_ok, pages_of, flush in *.
  simpl. destruct (cur_para st) as [p |] eqn:Ep.
  - destruct (normalize_text (join [SPACE] (buf st))) as [| c t] eqn:En.
    + rewrite app_nil_r. split; [exact H1 |].
      split; [intros ? ?; discriminate |].
      split; [exact (StronglySorted_app_1_l _ _ _ H3) |].
      apply Forall_app in H4 as [H4 _]. exact H4.
    + rewrite app_nil_r, map_app. simpl. split.
      * apply Forall_app. split; [exact H1 |].
        constructor; [| constructor].
        split; [exact (H2 p eq_refl) |].
        split; [discriminate |].
        exists (join [SPACE] (buf st)). simpl. congruence.
      * split; [intros ? ?; discriminate |]. split; assumption.
  - rewrite app_nil_r in *.
    split; [exact H1 |]. split; [intros ? ?; discriminate |].
    split; assumption.
Qed.

Lemma records_ok_context (lo hi : Z) (st : state)
    (t : option str) (s ss : str) (c : option str) :
  records_ok lo hi st ->
  records_ok lo hi (State (results st) t s ss c (cur_para st) (buf st)).
Proof. intros H. exact H. Qed.

Lemma records_ok_paragraph (lo printed : Z) (st : state) (txt : str) :
  (lo <= printed)%Z ->
  records_ok lo printed st ->
  records_ok lo printed (paragraph_or_continuation printed st txt).
Proof.
  intros Hlo H. unfold paragraph_or_continuation.
  destruct (rmatch PARA_START_RE txt) as [m |] eqn:Em.
  - apply records_ok_flush in H. destruct H as (H1 & _ & H3 & H4).
    unfold records_ok, pages_of in *. simpl in *.
    rewrite app_nil_r in H3, H4.
    destruct (paragraph_number_decimal txt m Em) as (c & ds & Eg & Hc & Hds).
    split; [exact H1 |]. split.
    + intros p Hp. injection Hp as <-. unfold fields_ok. simpl.
      split; [apply opt_or_NA_not_empty |].
      split; [apply or_NA_not_empty |].
      split; [apply or_NA_not_empty |].
      rewrite Eg. split; [discriminate |]. simpl. rewrite Hc. exact Hds.
    + split.
      * apply StronglySorted_app_2; [| exact H3 | repeat constructor].
        intros x1 x2 Hx1 Hx2. apply list_elem_of_singleton in Hx2. subst x2.
        rewrite Forall_forall in H4. apply H4 in Hx1. lia.
      * apply Forall_app. split; [exact H4 |].
        constructor; [lia | constructor].
  - destruct (cur_para st) eqn:Ep; [| exact H].
    destruct H as (H1 & H2 & H3 & H4).
    unfold records_ok, pages_of in *. simpl. rewrite Ep in *.
    split; [exact H1 |]. split; [exact H2 |]. split; assumption.
Qed.

Lemma records_ok_v3_block (lo printed : Z) (st : state) (b : tblock) :
  (lo <= printed)%Z ->
  records_ok lo printed st ->
  records_ok lo printed (V3.process_block printed st b).
Proof.
  intros Hlo H. unfold V3.process_block.
  destruct (is_title b); [exact H |].
  destruct (if Qle_bool HEADING_MIN_PT (max_size b)
            then V3.heading_match (text b) else None); [exact H |].
  destruct (_ || _); [exact H |].
  apply records_ok_paragraph; assumption.
Qed.

Lemma fold_left_invariant {A B : Type} (P : A -> Prop) (f : A -> B -> A)
    (l : list B) :
  (forall a b, P a -> P (f a b)) -> forall a : A, P a -> P (fold_left f l a).
Proof.
  intros Hf. induction l as [| b l IH]; intros a Ha; simpl;
    [exact Ha | apply IH, Hf, Ha].
Qed.

Lemma records_ok_v3 (lo printed : Z) (st : state) (bs : list tblock) :
  (lo <= printed)%Z ->
  records_ok lo printed st ->
  records_ok lo printed (V3.process_blocks printed st bs).
Proof.
  intros Hlo. unfold V3.process_blocks. apply fold_left_invariant.
  intros a b. apply records_ok_v3_block. exact Hlo.
Qed.

Lemma records_ok_v2 (lo printed : Z) (st : state) (bs : list tblock) :
  (lo <= printed)%Z ->
  records_ok lo printed st ->
  records_ok lo printed (V2.process_blocks printed st bs).
Proof.
  intros Hlo H. unfold V2.process_blocks.
  apply fold_left_invariant.
  { intros a b Ha. unfold V2.pass_c.
    destruct (Qlt_bool _ _); [exact Ha |].
    destruct (_ || _); [exact Ha |].
    apply records_ok_paragraph; assumption. }
  apply fold_left_invariant.
  { intros a b Ha. unfold V2.pass_b.
    destruct (Qlt_bool _ _); [exact Ha |].
    destruct (rmatch SUBSEC_NUMDOT_RE _); [exact Ha |].
    destruct (rmatch SUBSEC_ALPHADOT_RE _); [exact Ha |].
    destruct (rmatch SEC_NUM_RE _); [exact Ha |].
    destruct (rmatch SEC_ALPHA_RE _); exact Ha. }
  apply fold_left_invariant; [| exact H].
  intros a b Ha. unfold V2.pass_a. destruct (is_title b); exact Ha.
Qed.

Lemma extract_records_ok
    (process_blocks : Z -> state -> list tblock -> state) :
  (forall (lo printed : Z) (st : state) (bs : list tblock),
      (lo <= printed)%Z -> records_ok lo printed st ->
      records_ok lo printed (process_blocks printed st bs)) ->
  forall (doc : document) (s e : Z) (out : list para),
    extract process_blocks doc s e = Some out ->
    Forall emitted_ok out /\
    Forall (fun p => (s <= p_page p <= e)%Z) out /\
    StronglySorted Z.le (map p_page out).
Proof.
  intros Hstep doc s e out Hout.
  destruct (extract_invariant process_blocks (records_ok s) s e
              (records_ok_init s)
              (records_ok_mono s)
              (fun printed st bs Hp => Hstep s printed st bs (proj1 Hp))
              (records_ok_flush s) doc out Hout)
    as (st & -> & (H1 & _ & H3 & H4) & Hc).
  split; [exact H1 |].
  unfold pages_of in H3, H4. rewrite Hc, app_nil_r in H3, H4.
  split; [| exact H3].
  apply Forall_fmap in H4. exact H4.
Qed.

(** Every record that either extractor returns has a title, a section, a
    subsection and a text that are not empty, a paragraph number made of
    decimal digits, and a text that is the result of a normalization. *)
Theorem extracted_records_well_formed
    (doc : document) (s e : Z) (out : list para) :
  extract_json doc s e = Some out \/ extract_json_v2 doc s e = Some out ->
  Forall emitted_ok out.
Proof.
  intros [H | H].
  - exact (proj1 (extract_records_ok V3.process_blocks records_ok_v3
                    doc s e out H)).
  - exact (proj1 (extract_records_ok V2.process_blocks records_ok_v2
                    doc s e out H)).
Qed.

(** Every record either extractor returns carries a printed page of the
    requested range, and the records come in ascending page order. *)
Theorem extracted_pages_in_range_and_order
    (doc : document) (s e : Z) (out : list para) :
  extract_json doc s e = Some out \/ extract_json_v2 doc s e = Some out ->
  Forall (fun p => (s <= p_page p <= e)%Z) out /\
  StronglySorted Z.le (map p_page out).
Proof.
  intros [H | H].
  - exact (proj2 (extract_records_ok V3.process_blocks records_ok_v3
                    doc s e out H)).
  - exact (proj2 (extract_records_ok V2.process_blocks records_ok_v2
                    doc s e out H)).
Qed.

(** ** Ranges that reach no page *)

Lemma fold_left_fixed {A B : Type} (f : A -> B -> A) (l : list B) (a : A) :
  (forall b, b ∈ l -> f a b = a) -> fold_left f l a = a.
Proof.
  induction l as [| b l IH]; intros H; simpl; [reflexivity |].
  rewrite (H b) by left. apply IH. intros b' Hb'. apply H. right. exact Hb'.
Qed.

Lemma extract_no_page
    (process_blocks : Z -> state -> list tblock -> state)
    (doc : document) (s e : Z) (printed_to_index : gmap Z nat) :
  build_index doc 0 ∅ = Some printed_to_index ->
  (forall q : Z, (s <= q <= e)%Z -> printed_to_index !! q = None) ->
  extract process_blocks doc s e = Some [].
Proof.
  intros Hidx H. unfold extract. rewrite Hidx.
  rewrite fold_left_fixed; [reflexivity |].
  intros q Hq. apply elem_of_seqZ in Hq.
  unfold process_page. rewrite H by lia. reflexivity.
Qed.

(** Where the page index is built and no page of the document resolves to
    a printed number of the requested range, both extractors return the
    empty list. *)
Theorem extract_outside_document
    (doc : document) (s e : Z) (printed_to_index : gmap Z nat) :
  build_index doc 0 ∅ = Some printed_to_index ->
  (forall (i : nat) (bs : list pblock) (q : Z),
      doc !! i = Some bs ->
      get_printed_page_number (Page i bs) = Some q ->
      ~ (s <= q <= e)%Z) ->
  extract_json doc s e = Some [] /\ extract_json_v2 doc s e = Some [].
Proof.
  intros Hidx H.
  assert (Hnone : forall q : Z,
             (s <= q <= e)%Z -> printed_to_index !! q = None).
  { pose proof Hidx as Hinv. apply build_index_inv in Hinv as [-> Hall].
    intros q Hq. destruct (index_of doc 0 ∅ !! q) as [k |] eqn:E;
      [| reflexivity].
    exfalso. apply page_index_lookup in E as (bs & Hl & Hp & _).
    apply (H k bs q Hl); [| exact Hq].
    rewrite <- Hp. exact (Hall k bs Hl). }
  split; apply (extract_no_page _ doc s e printed_to_index Hidx Hnone).
Qed.

(** Where the page index is built, an empty range, a range below zero and
    an empty document all give the empty list. *)
Theorem extract_empty_cases
    (doc : document) (s e : Z) (printed_to_index : gmap Z nat) :
  build_index doc 0 ∅ = Some printed_to_index ->
  (e < s)%Z \/ (e < 0)%Z \/ doc = [] ->
  extract_json doc s e = Some [] /\ extract_json_v2 doc s e = Some [].
Proof.
  intros Hidx H.
  assert (Hnone : forall q : Z,
             (s <= q <= e)%Z -> printed_to_index !! q = None).
  { pose proof Hidx as Hinv. apply build_index_inv in Hinv as [-> _].
    intros q Hq. destruct (index_of doc 0 ∅ !! q) as [k |] eqn:E;
      [| reflexivity].
    exfalso. apply page_index_lookup in E as (bs & Hl & Hp & _).
    pose proof (printed_of_nonneg k bs) as Hn.
    destruct H as [H | [H | ->]]; [lia | lia | discriminate]. }
  split; apply (extract_no_page _ doc s e printed_to_index Hidx Hnone).
Qed.

(** ** Section labels of the single-pass extractor *)

Lemma or_NA_fixed (s : str) : s <> [] -> or_NA s = s.
Proof. destruct s; [congruence | reflexivity]. Qed.

Lemma sections_ok_flush (st : state) : sections_ok st -> sections_ok (flush st).
Proof.
  intros (H1 & H2 & H3). unfold sections_ok, flush. simpl.
  split; [exact H1 |]. split; [| intros ? ?; discriminate].
  destruct (cur_para st) as [p |]; [| exact H2].
  destruct (normalize_text _); [exact H2 |].
  apply Forall_app. split; [exact H2 |].
  constructor; [| constructor]. exact (H3 p eq_refl).
Qed.

Lemma sections_ok_paragraph (printed : Z) (st : state) (txt : str) :
  sections_ok st -> sections_ok (paragraph_or_continuation printed st txt).
Proof.
  intros H. unfold paragraph_or_continuation.
  destruct (rmatch PARA_START_RE txt) as [m |].
  - apply sections_ok_flush in H. destruct H as (H1 & H2 & _).
    unfold sections_ok. simpl in *.
    split; [exact H1 |]. split; [exact H2 |].
    intros p Hp. injection Hp as <-. unfold section_is_title. simpl.
    destruct H1 as [-> | ->]; [left; reflexivity |].
    right. apply or_NA_fixed, opt_or_NA_not_empty.
  - destruct (cur_para st) eqn:Ep; [| exact H].
    destruct H as (H1 & H2 & H3). unfold sections_ok. simpl.
    rewrite Ep in *. auto.
Qed.

Lemma sections_ok_v3 (printed : Z) (st : state) (bs : list tblock) :
  sections_ok st -> sections_ok (V3.process_blocks printed st bs).
Proof.
  unfold V3.process_blocks. apply fold_left_invariant.
  intros a b (H1 & H2 & H3). unfold V3.process_block.
  destruct (is_title b).
  { unfold sections_ok. simpl. auto. }
  destruct (if Qle_bool HEADING_MIN_PT (max_size b)
            then V3.heading_match (text b) else None).
  { unfold sections_ok. simpl. auto. }
  destruct (_ || _); [unfold sections_ok; auto |].
  apply sections_ok_paragraph. unfold sections_ok. auto.
Qed.

(** In the output of the single-pass extractor the section of a record is
    either "N/A" or the same string as its title. *)
Theorem v3_section_is_title_or_unset
    (doc : document) (s e : Z) (out : list para) :
  extract_json doc s e = Some out ->
  Forall (fun p => p_section p = NA \/ p_section p = p_title p) out.
Proof.
  intros Hout.
  destruct (extract_invariant V3.process_blocks (fun _ => sections_ok) s e)
    with (doc := doc) (out := out) as (st & -> & (_ & H & _) & _).
  - intros _. unfold sections_ok. simpl.
    split; [left; reflexivity |]. split; [constructor |].
    intros ? ?; discriminate.
  - intros _ _ st _ H. exact H.
  - intros printed st bs _. apply sections_ok_v3.
  - intros _. apply sections_ok_flush.
  - exact Hout.
  - exact H.
Qed.

(** ** Where the two extractors agree *)

Lemma no_heading_shape (txt : str) :
  V2.matches_heading txt = false ->
  rmatch SUBSEC_NUMDOT_RE txt = None /\ rmatch SUBSEC_ALPHADOT_RE txt = None /\
  rmatch SEC_NUM_RE txt = None /\ rmatch SEC_ALPHA_RE txt = None.
Proof.
  unfold V2.matches_heading. intros H.
  apply orb_false_elim in H as [H H4]. apply orb_false_elim in H as [H H3].
  apply orb_false_elim in H as [H1 H2].
  destruct (rmatch SUBSEC_NUMDOT_RE txt); [discriminate |].
  destruct (rmatch SUBSEC_ALPHADOT_RE txt); [discriminate |].
  destruct (rmatch SEC_NUM_RE txt); [discriminate |].
  destruct (rmatch SEC_ALPHA_RE txt); [discriminate |]. auto.
Qed.

Lemma plain_block_agrees (printed : Z) (st : state) (b : tblock) :
  is_plain b = true ->
  V2.pass_a st b = st /\ V2.pass_b st b = st /\
  V2.pass_c printed st b = V3.process_block printed st b.
Proof.
  unfold is_plain. intros H. apply andb_prop in H as [Ht Hh].
  apply negb_true_iff in Ht. apply negb_true_iff in Hh.
  unfold V2.pass_a, V2.pass_b, V2.pass_c, V3.process_block, V3.heading_match,
    Qlt_bool.
  rewrite Ht, Hh.
  destruct (Qle_bool HEADING_MIN_PT (max_size b)); simpl in *.
  - destruct (no_heading_shape _ Hh) as (-> & -> & -> & ->).
    split; [reflexivity |]. split; [reflexivity |].
    destruct (Qle_bool FOOTNOTE_MAX_PT (max_size b)); reflexivity.
  - split; [reflexivity |]. split; [reflexivity |].
    destruct (Qle_bool FOOTNOTE_MAX_PT (max_size b)); reflexivity.
Qed.

Lemma fold_left_agree {A B : Type} (f g : A -> B -> A) (l : list B) :
  (forall a b, b ∈ l -> f a b = g a b) ->
  forall a : A, fold_left f l a = fold_left g l a.
Proof.
  induction l as [| b l IH]; intros H a; simpl; [reflexivity |].
  rewrite (H a b) by left. apply IH. intros a' b' Hb'. apply H. right. exact Hb'.
Qed.

Lemma plain_blocks_agree (printed : Z) (st : state) (bs : list tblock) :
  Forall (fun b => is_plain b = true) bs ->
  V2.process_blocks printed st bs = V3.process_blocks printed st bs.
Proof.
  rewrite Forall_forall. intros H.
  unfold V2.process_blocks, V3.process_blocks.
  rewrite (fold_left_fixed V2.pass_a)
    by (intros b Hb; apply (plain_block_agrees printed st b (H b Hb))).
  rewrite (fold_left_fixed V2.pass_b)
    by (intros b Hb; apply (plain_block_agrees printed st b (H b Hb))).
  apply fold_left_agree. intros a b Hb.
  apply (plain_block_agrees printed a b (H b Hb)).
Qed.

(** On a document whose collected blocks are neither titles nor blocks of
    heading size matched by a heading pattern, the three-pass extractor
    and the single-pass extractor return the same records. *)
Theorem extractors_agree_on_plain_pages (doc : document) (s e : Z) :
  (forall (i : nat) (bs : list pblock),
      doc !! i = Some bs ->
      Forall (fun b => is_plain b = true) (collect_blocks (Page i bs))) ->
  extract_json_v2 doc s e = extract_json doc s e.
Proof.
  intros H. unfold extract_json_v2, extract_json, extract.
  destruct (build_index doc 0 ∅) as [printed_to_index |]; [| reflexivity].
  f_equal. f_equal. f_equal.
  apply fold_left_pointwise. intros st q. unfold process_page.
  destruct (printed_to_index !! q) as [k |]; [| reflexivity].
  unfold load_page. destruct (doc !! k) as [bs |] eqn:El; [| reflexivity].
  simpl. apply plain_blocks_agree. exact (H k bs El).
Qed.

(** ** The three-pass extractor: one heading context per page *)

Lemma v2_pass_a_records (st : state) (bs : list tblock) :
  results (fold_left V2.pass_a bs st) = results st /\
  cur_para (fold_left V2.pass_a bs st) = cur_para st.
Proof.
  revert st. induction bs as [| b bs IH]; intros st; simpl; [auto |].
  destruct (IH (V2.pass_a st b)) as [-> ->].
  unfold V2.pass_a. destruct (is_title b); auto.
Qed.

Lemma v2_pass_b_records (st : state) (bs : list tblock) :
  results (fold_left V2.pass_b bs st) = results st /\
  cur_para (fold_left V2.pass_b bs st) = cur_para st.
Proof.
  revert st. induction bs as [| b bs IH]; intros st; simpl; [auto |].
  destruct (IH (V2.pass_b st b)) as [-> ->].
  unfold V2.pass_b. destruct (Qlt_bool _ _); [auto |].
  destruct (rmatch SUBSEC_NUMDOT_RE _); [auto |].
  destruct (rmatch SUBSEC_ALPHADOT_RE _); [auto |].
  destruct (rmatch SEC_NUM_RE _); [auto |].
  destruct (rmatch SEC_ALPHA_RE _); auto.
Qed.

Lemma v2_pass_c_step (ctx : state) (printed : Z) (old : list para)
    (st : state) (b : tblock) :
  v2_page_inv ctx printed old st ->
  v2_page_inv ctx printed old (V2.pass_c printed st b).
Proof.
  intros H. unfold V2.pass_c.
  destruct (Qlt_bool (max_size b) FOOTNOTE_MAX_PT); [exact H |].
  destruct (_ || _); [exact H |].
  destruct H as (Ht & Hs & Hss & (new & Hr & Hnew) & Hc).
  unfold paragraph_or_continuation.
  assert (Hflush : exists new' : list para,
             results (flush st) = old ++ new' /\
             Forall (opened_under ctx printed) new').
  { unfold flush. simpl. destruct (cur_para st) as [p |] eqn:Ep; [| eauto].
    destruct (normalize_text _) as [| c t]; [eauto |].
    exists (new ++ [set_text p (c :: t)]). rewrite Hr, app_assoc.
    split; [reflexivity |]. apply Forall_app. split; [exact Hnew |].
    constructor; [| constructor]. exact (Hc p eq_refl). }
  destruct (rmatch PARA_START_RE (text b)) as [m |].
  - unfold v2_page_inv. simpl.
    split; [exact Ht |]. split; [exact Hs |]. split; [exact Hss |].
    split; [exact Hflush |].
    intros p Hp. injection Hp as <-. unfold opened_under. simpl.
    rewrite Ht, Hs, Hss. auto.
  - destruct (cur_para st) eqn:Ep.
    + unfold v2_page_inv. simpl.
      split; [exact Ht |]. split; [exact Hs |]. split; [exact Hss |].
      split; [eauto |].
      exact Hc.
    + unfold v2_page_inv.
      split; [exact Ht |]. split; [exact Hs |]. split; [exact Hss |].
      split; [eauto |]. rewrite Ep. intros ? ?; discriminate.
Qed.

(** When the three-pass extractor reads a page with no paragraph in
    flight, every record it opens on that page, above or below the
    headings, carries the heading context reached at the end of passes A
    and B, that is the last title and the last heading of the page. *)
Theorem v2_page_has_one_context (printed : Z) (st : state) (bs : list tblock) :
  cur_para st = None ->
  title (V2.process_blocks printed st bs) = title (v2_page_context st bs) /\
  section (V2.process_blocks printed st bs)
    = section (v2_page_context st bs) /\
  subsection (V2.process_blocks printed st bs)
    = subsection (v2_page_context st bs) /\
  (exists new : list para,
      results (V2.process_blocks printed st bs) = results st ++ new /\
      Forall (opened_under (v2_page_context st bs) printed) new) /\
  (forall p : para,
      cur_para (V2.process_blocks printed st bs) = Some p ->
      opened_under (v2_page_context st bs) printed p).
Proof.
  intros Hc. unfold V2.process_blocks.
  change (fold_left V2.pass_b bs (fold_left V2.pass_a bs st))
    with (v2_page_context st bs).
  apply (fold_left_invariant
           (v2_page_inv (v2_page_context st bs) printed (results st))).
  - intros a b. apply v2_pass_c_step.
  - unfold v2_page_inv.
    split; [reflexivity |]. split; [reflexivity |]. split; [reflexivity |].
    unfold v2_page_context.
    destruct (v2_pass_b_records (fold_left V2.pass_a bs st) bs) as [-> ->].
    destruct (v2_pass_a_records st bs) as [-> ->].
    split.
    + exists []. rewrite app_nil_r. split; [reflexivity | constructor].
    + rewrite Hc. intros ? ?; discriminate.
Qed.

(** ** Patterns that need white space *)

Lemma run_skip (raw : str) (it : item) (re : pattern)
    (opens : list nat) (groups : list (nat * nat)) (pos : nat) (r : result) :
  run (it :: re) opens groups pos (drop pos raw) = Some r ->
  exists (opens' : list nat) (groups' : list (nat * nat)) (pos' : nat),
    run re opens' groups' pos' (drop pos' raw) = Some r.
Proof.
  destruct it; intros H.
  - apply skip_chr in H. eauto.
  - apply skip_star in H as (pos' & H). eauto.
  - apply skip_plus in H as (n & _ & _ & _ & _ & _ & H). eauto.
  - apply skip_lazy in H as (pos' & H). eauto.
  - simpl in H. eauto.
  - simpl in H. destruct opens; eauto.
  - simpl in H. destruct (Nat.eqb pos 0); [eauto | discriminate].
  - simpl in H. destruct (at_eol _); [eauto | discriminate].
Qed.

(** A pattern with [\s+] in it matches only texts that have white space. *)
Lemma run_needs_space (raw : str) (re : pattern) :
  In (Plus isspace) re ->
  forall (opens : list nat) (groups : list (nat * nat)) (pos : nat)
         (r : result),
    run re opens groups pos (drop pos raw) = Some r ->
    exists c : char, c ∈ raw /\ isspace c = true.
Proof.
  induction re as [| it re IH]; intros Hin opens groups pos r H.
  - destruct Hin.
  - destruct Hin as [-> | Hin].
    + apply skip_plus in H as (n & c & ds & E & Hc & _).
      exists c. split; [| exact Hc].
      apply (subseteq_drop pos raw), (subseteq_take (S n)).
      rewrite E. left.
    + apply run_skip in H as (o' & g' & pos' & H).
      exact (IH Hin _ _ _ _ H).
Qed.

Lemma rmatch_needs_space (re : pattern) (txt : str) :
  In (Plus isspace) re ->
  (forall c : char, c ∈ txt -> isspace c = false) ->
  rmatch re txt = None.
Proof.
  intros Hin Hno. unfold rmatch, at_pos.
  destruct (run re [] [] 0%nat txt) as [[e gs] |] eqn:H; [| reflexivity].
  exfalso. change txt with (drop 0%nat txt) in H at 1.
  apply (run_needs_space txt re Hin) in H as (c & Hc & Hsp).
  rewrite (Hno c Hc) in Hsp. discriminate.
Qed.

Lemma heading_match_needs_space (txt : str) :
  (forall c : char, c ∈ txt -> isspace c = false) ->
  V3.heading_match txt = None.
Proof.
  intros Hno. unfold V3.heading_match.
  rewrite (rmatch_needs_space SUBSEC_NUMDOT_RE)
    by (try exact Hno; simpl; tauto).
  rewrite (rmatch_needs_space SUBSEC_ALPHADOT_RE)
    by (try exact Hno; simpl; tauto).
  rewrite (rmatch_needs_space SEC_NUM_RE) by (try exact Hno; simpl; tauto).
  rewrite (rmatch_needs_space SEC_ALPHA_RE) by (try exact Hno; simpl; tauto).
  reflexivity.
Qed.

Lemma table_heading_has_space (txt : str) :
  looks_like_table_heading txt = true -> SPACE ∈ txt.
Proof.
  unfold looks_like_table_heading, TABLE_HEADING_PREFIXES. cbn [existsb].
  intros H. apply orb_prop in H as [H | H].
  - apply (startswith_elem _ _ SPACE H). vm_compute.
    do 5 right. left.
  - rewrite orb_false_r in H. apply (startswith_elem _ _ SPACE H).
    vm_compute. do 8 right. left.
Qed.

(** A block whose text has no white space in it (a single word, or a
    paragraph number that stands alone such as "12.") is neither a heading
    nor a paragraph start nor a table heading: unless it is a title or a
    footnote, it is appended to the paragraph in flight, and dropped when
    there is none. *)
Theorem block_without_space_is_continuation
    (printed : Z) (st : state) (b : tblock) :
  (forall c : char, c ∈ text b -> isspace c = false) ->
  is_title b = false ->
  V3.heading_match (text b) = None /\
  rmatch PARA_START_RE (text b) = None /\
  looks_like_table_heading (text b) = false /\
  V3.process_block printed st b =
    if Qlt_bool (max_size b) FOOTNOTE_MAX_PT then st
    else match cur_para st with
         | Some p =>
             State (results st) (title st) (section st) (subsection st)
                   (chapter_id st) (Some p) (buf st ++ [text b])
         | None => st
         end.
Proof.
  intros Hno Ht.
  assert (Hh : V3.heading_match (text b) = None)
    by (apply heading_match_needs_space; exact Hno).
  assert (Hp : rmatch PARA_START_RE (text b) = None)
    by (apply rmatch_needs_space; [simpl; tauto | exact Hno]).
  assert (Htab : looks_like_table_heading (text b) = false).
  { destruct (looks_like_table_heading (text b)) eqn:E; [| reflexivity].
    apply table_heading_has_space in E. apply Hno in E. discriminate. }
  split; [exact Hh |]. split; [exact Hp |]. split; [exact Htab |].
  unfold V3.process_block. rewrite Ht, Hh, Htab, orb_false_r.
  destruct (Qle_bool HEADING_MIN_PT (max_size b));
    (destruct (Qlt_bool (max_size b) FOOTNOTE_MAX_PT); [reflexivity |]);
    unfold paragraph_or_continuation; rewrite Hp;
    destruct (cur_para st); reflexivity.
Qed.

(** ** Table headings *)

Lemma startswith_split (pfx s : str) :
  startswith pfx s = true -> exists r : str, s = pfx ++ r.
Proof.
  revert s. induction pfx as [| a pfx IH]; intros s H.
  - exists s. reflexivity.
  - destruct s as [| c s]; [discriminate |].
    simpl in H. apply andb_prop in H as [Hac H].
    apply N.eqb_eq in Hac. subst c.
    destruct (IH _ H) as [r ->]. exists r. reflexivity.
Qed.

Lemma table_heading_not_heading (txt : str) :
  looks_like_table_heading txt = true -> V3.heading_match txt = None.
Proof.
  unfold looks_like_table_heading, TABLE_HEADING_PREFIXES. cbn [existsb].
  intros H. apply orb_prop in H as [H | H].
  - apply startswith_split in H as [r ->]. reflexivity.
  - rewrite orb_false_r in H. apply startswith_split in H as [r ->].
    reflexivity.
Qed.

(** A block whose text starts with "Table " or with "Relevant regulatory
    references" matches no heading pattern; unless it is a title, it
    leaves the classifier state as it is, whatever its size. *)
Theorem table_heading_is_inert (printed : Z) (st : state) (b : tblock) :
  looks_like_table_heading (text b) = true ->
  is_title b = false ->
  V3.heading_match (text b) = None /\ V3.process_block printed st b = st.
Proof.
  intros Htab Ht.
  pose proof (table_heading_not_heading _ Htab) as Hh.
  split; [exact Hh |].
  unfold V3.process_block. rewrite Ht, Hh, Htab, orb_true_r.
  destruct (Qle_bool HEADING_MIN_PT (max_size b)); reflexivity.
Qed.

(** ** A paragraph and its continuation blocks *)

(** A paragraph start followed by continuation blocks: the paragraph in
    flight before is flushed, the new paragraph stays in flight with the
    remainder of its first block and the texts of the continuation blocks
    in its buffer, in order; when it is flushed its text is the
    normalization of these parts joined by single spaces, and it is
    dropped when that text is empty. *)
Theorem paragraph_collects_continuations
    (printed : Z) (st : state) (b : tblock) (cs : list tblock) :
  is_paragraph_start b = true ->
  Forall (fun c => is_continuation c = true) cs ->
  exists (m : mobj) (p : para) (parts : list str),
    rmatch PARA_START_RE (text b) = Some m /\
    p = Para (opt_or_NA (title st)) (or_NA (section st))
             (or_NA (subsection st)) (group m 1 (text b)) printed [] /\
    parts = match strip (slice_from (m_end m) (text b)) with
            | [] => []
            | rest => [rest]
            end ++ map text cs /\
    V3.process_blocks printed st (b :: cs) =
      State (results (flush st)) (title st) (section st) (subsection st)
            (chapter_id st) (Some p) parts /\
    results (flush (V3.process_blocks printed st (b :: cs))) =
      results (flush st)
      ++ match normalize_text (join [SPACE] parts) with
         | [] => []
         | t => [set_text p t]
         end.
Proof.
  intros Hb Hcs.
  destruct (rule_flags b (or_introl Hb)) as (Ht & Hh & Hd).
  unfold is_paragraph_start in Hb. apply andb_prop in Hb as [_ Hb].
  destruct (rmatch PARA_START_RE (text b)) as [m |] eqn:Em; [| discriminate].
  eexists m, _, _. split; [reflexivity |]. split; [reflexivity |].
  split; [reflexivity |].
  assert (E : V3.process_blocks printed st (b :: cs) =
              State (results (flush st)) (title st) (section st)
                    (subsection st) (chapter_id st)
                    (Some (Para (opt_or_NA (title st)) (or_NA (section st))
                                (or_NA (subsection st))
                                (group m 1 (text b)) printed []))
                    (match strip (slice_from (m_end m) (text b)) with
                     | [] => []
                     | rest => [rest]
                     end ++ map text cs)).
  { unfold V3.process_blocks. simpl fold_left.
    fold (V3.process_blocks printed (V3.process_block printed st b) cs).
    assert (E1 : V3.process_block printed st b =
                 State (results (flush st)) (title st) (section st)
                       (subsection st) (chapter_id st)
                       (Some (Para (opt_or_NA (title st)) (or_NA (section st))
                                   (or_NA (subsection st))
                                   (group m 1 (text b)) printed []))
                       (match strip (slice_from (m_end m) (text b)) with
                        | [] => []
                        | rest => [rest]
                        end)).
    { unfold V3.process_block.
      rewrite Ht, (heading_rule_silent b Ht Hh), Hd.
      unfold paragraph_or_continuation. rewrite Em. simpl.
      destruct (strip _); reflexivity. }
    rewrite E1.
    erewrite (continuation_blocks_append printed cs Hcs)
      by (simpl; reflexivity).
    reflexivity. }
  split; [exact E |].
  rewrite E. unfold flush. simpl.
  destruct (normalize_text _); [rewrite app_nil_r |]; reflexivity.
Qed.

(** ** Pages outside the requested range *)

Lemma extract_replace_page
    (process_blocks : Z -> state -> list tblock -> state)
    (doc : document) (i : nat) (bs bs' : list pblock) (q s e : Z) :
  doc !! i = Some bs ->
  get_printed_page_number (Page i bs) = Some q ->
  get_printed_page_number (Page i bs') = Some q ->
  ~ (s <= q <= e)%Z ->
  extract process_blocks (<[i := bs']> doc) s e
  = extract process_blocks doc s e.
Proof.
  intros Hi Hq Hq' Hout. unfold extract.
  rewrite (build_index_insert doc i bs bs' ∅ Hi) by congruence.
  destruct (build_index doc 0 ∅) as [printed_to_index |] eqn:Hidx;
    [| reflexivity].
  apply build_index_inv in Hidx as [-> _].
  f_equal. f_equal. f_equal.
  apply fold_left_agree. intros st q0 Hq0. apply elem_of_seqZ in Hq0.
  unfold process_page.
  destruct (index_of doc 0 ∅ !! q0) as [k |] eqn:Ek; [| reflexivity].
  unfold load_page. rewrite list_lookup_insert_ne; [reflexivity |].
  intros <-. apply page_index_lookup in Ek as (b0 & Hl & Hp & _).
  rewrite Hi in Hl. injection Hl as <-.
  rewrite (printed_of_Some _ _ _ Hq) in Hp. apply Hout. lia.
Qed.

(** A page whose printed number lies outside the requested range
    contributes nothing: the output of both extractors stays the same
    when its blocks are replaced by any blocks that resolve to the same
    printed number. *)
Theorem page_outside_range_is_ignored
    (doc : document) (i : nat) (bs bs' : list pblock) (q s e : Z) :
  doc !! i = Some bs ->
  get_printed_page_number (Page i bs) = Some q ->
  get_printed_page_number (Page i bs') = Some q ->
  ~ (s <= q <= e)%Z ->
  extract_json (<[i := bs']> doc) s e = extract_json doc s e /\
  extract_json_v2 (<[i := bs']> doc) s e = extract_json_v2 doc s e.
Proof.
  intros Hi Hq Hq' Hout.
  split; exact (extract_replace_page _ doc i bs bs' q s e Hi Hq Hq' Hout).
Qed.

(** ** The fixed points of the normalizer *)

Lemma single_spaced_intro (t : str) :
  (forall c : char, c ∈ t -> isspace c = true -> c = SPACE) ->
  (forall l r : str, t <> l ++ SPACE :: SPACE :: r) ->
  forall b : bool,
    (b = true -> match t with [] => True | c :: _ => isspace c = false end) ->
    single_spaced b t = true.
Proof.
  induction t as [| c t IH]; intros Hsp Hdd b Hb; simpl; [reflexivity |].
  assert (Hsp' : forall c0 : char, c0 ∈ t -> isspace c0 = true -> c0 = SPACE)
    by (intros c0 H0; apply Hsp; right; exact H0).
  assert (Hdd' : forall l r : str, t <> l ++ SPACE :: SPACE :: r)
    by (intros l r E; apply (Hdd (c :: l) r); simpl; congruence).
  destruct (isspace c) eqn:Hc.
  - assert (Ec : c = SPACE) by (apply Hsp; [left | exact Hc]).
    destruct b; [specialize (Hb eq_refl); simpl in Hb; congruence |].
    rewrite Ec. simpl. apply IH; [exact Hsp' | exact Hdd' |].
    intros _. destruct t as [| c' t']; [exact I |].
    destruct (isspace c') eqn:Hc'; [| reflexivity].
    exfalso. apply (Hdd [] t'). simpl.
    rewrite Ec, (Hsp c' ltac:(right; left) Hc'). reflexivity.
  - apply IH; [exact Hsp' | exact Hdd' | discriminate].
Qed.

Lemma rstrip_fixed (t : str) :
  (forall (l : str) (c : char), t = l ++ [c] -> isspace c = false) ->
  rstrip t = t.
Proof.
  intros H. unfold rstrip. rewrite lstrip_fixed; [apply rev_involutive |].
  destruct (rev t) as [| c r] eqn:E; [exact I |].
  apply (H (rev r) c). rewrite <- (rev_involutive t), E. reflexivity.
Qed.

(** A text that has the shape of a normalized text and no en dash is
    returned unchanged: these texts are fixed points of the normalizer. *)
Theorem normalize_text_fixed_point (t : str) :
  NEWLINE ∉ t ->
  SOFT_HYPHEN ∉ t ->
  EN_DASH ∉ t ->
  (forall c : char, c ∈ t -> isspace c = true -> c = SPACE) ->
  (forall l r : str, t <> l ++ SPACE :: SPACE :: r) ->
  (forall (c : char) (r : str), t = c :: r -> isspace c = false) ->
  (forall (l : str) (c : char), t = l ++ [c] -> isspace c = false) ->
  normalize_text t = t.
Proof.
  intros Hnl Hsh Hd Hsp Hdd Hhead Hlast.
  rewrite normalize_text_eq.
  rewrite (replace_absent [SOFT_HYPHEN] [] SOFT_HYPHEN) by (try exact Hsh; left).
  rewrite (replace_absent [HYPHEN; NEWLINE] [] NEWLINE)
    by (try exact Hnl; right; left).
  rewrite (replace_absent [NEWLINE] [SPACE] NEWLINE) by (try exact Hnl; left).
  unfold sub. rewrite (sub_from_no_match _ _ _ _ (no_dash_no_header t Hd)).
  rewrite single_spaced_squeeze.
  - unfold strip. rewrite lstrip_fixed.
    + apply rstrip_fixed. exact Hlast.
    + destruct t as [| c r]; [exact I | exact (Hhead c r eq_refl)].
  - apply single_spaced_intro; [exact Hsp | exact Hdd | discriminate].
Qed.

(** ** Joining tidy texts *)

Lemma tidy_fixed (t : str) : tidy t -> normalize_text t = t.
Proof.
  intros (_ & Hnl & Hsh & Hd & Hss & Hhead & Hlast).
  rewrite normalize_text_eq.
  rewrite (replace_absent [SOFT_HYPHEN] [] SOFT_HYPHEN) by (try exact Hsh; left).
  rewrite (replace_absent [HYPHEN; NEWLINE] [] NEWLINE)
    by (try exact Hnl; right; left).
  rewrite (replace_absent [NEWLINE] [SPACE] NEWLINE) by (try exact Hnl; left).
  unfold sub. rewrite (sub_from_no_match _ _ _ _ (no_dash_no_header t Hd)).
  rewrite (single_spaced_squeeze _ _ Hss).
  unfold strip. rewrite lstrip_fixed.
  - apply rstrip_fixed. exact Hlast.
  - destruct t as [| c r]; [exact I | exact (Hhead c r eq_refl)].
Qed.

Lemma normalized_is_tidy (raw : str) :
  normalize_text raw <> [] -> EN_DASH ∉ raw -> tidy (normalize_text raw).
Proof.
  intros Hne Hd. unfold tidy.
  split; [exact Hne |].
  split; [apply normalize_no_newline |].
  split; [apply normalize_no_soft_hyphen |].
  split.
  { intros H. apply normalize_elem in H as [H | H];
      [discriminate | exact (Hd H)]. }
  split; [apply normalize_single_spaced |].
  split; [apply normalize_head_not_space | apply normalize_last_not_space].
Qed.

Lemma single_spaced_app (p y : str) :
  p <> [] ->
  (forall (l : str) (c : char), p = l ++ [c] -> isspace c = false) ->
  single_spaced false y = true ->
  forall b : bool, single_spaced b p = true -> single_spaced b (p ++ y) = true.
Proof.
  intros Hne Hlast Hy.
  induction p as [| c p IH]; [congruence |]. intros b Hp.
  destruct p as [| c' p'].
  - simpl. rewrite (Hlast [] c eq_refl). exact Hy.
  - assert (IH' : forall b : bool,
               single_spaced b (c' :: p') = true ->
               single_spaced b ((c' :: p') ++ y) = true).
    { apply IH; [discriminate |].
      intros l c0 E. apply (Hlast (c :: l) c0). simpl. congruence. }
    change ((c :: c' :: p') ++ y) with (c :: ((c' :: p') ++ y)).
    simpl in Hp |- *. destruct (isspace c).
    + apply andb_prop in Hp as [Hp1 Hp2]. rewrite Hp1.
      exact (IH' true Hp2).
    + exact (IH' false Hp).
Qed.

Lemma last_of_app (p y l : str) (c : char) :
  y <> [] -> p ++ y = l ++ [c] -> exists l' : str, y = l' ++ [c].
Proof.
  intros Hy E. destruct (rev y) as [| c' r] eqn:Er.
  - exfalso. apply Hy. rewrite <- (rev_involutive y), Er. reflexivity.
  - assert (Ey : y = rev r ++ [c'])
      by (rewrite <- (rev_involutive y), Er; reflexivity).
    exists (rev r). rewrite Ey in E. rewrite app_assoc in E.
    apply app_inj_tail in E as [_ ->]. exact Ey.
Qed.

Lemma tidy_join (parts : list str) :
  Forall tidy parts -> parts <> [] -> tidy (join [SPACE] parts).
Proof.
  induction 1 as [| p parts Hp Hparts IH]; [congruence |]. intros _.
  destruct parts as [| q parts]; [exact Hp |].
  specialize (IH ltac:(discriminate)).
  change (join [SPACE] (p :: q :: parts))
    with (p ++ SPACE :: join [SPACE] (q :: parts)).
  destruct Hp as (Pne & Pnl & Psh & Pd & Pss & Phead & Plast).
  destruct IH as (Jne & Jnl & Jsh & Jd & Jss & Jhead & Jlast).
  remember (join [SPACE] (q :: parts)) as J.
  assert (Hmem : forall x : char,
             x <> SPACE -> x ∉ p -> x ∉ J -> x ∉ p ++ SPACE :: J).
  { intros x Hx H1 H2 H. apply elem_of_app in H as [H | H]; [exact (H1 H) |].
    apply elem_of_cons in H as [H | H]; [exact (Hx H) | exact (H2 H)]. }
  unfold tidy.
  split; [destruct p; [congruence | discriminate] |].
  split; [apply Hmem; [discriminate | assumption..] |].
  split; [apply Hmem; [discriminate | assumption..] |].
  split; [apply Hmem; [discriminate | assumption..] |].
  split.
  { apply single_spaced_app; [exact Pne | exact Plast | | exact Pss].
    destruct J as [| c r]; [congruence |].
    simpl in Jss |- *. rewrite (Jhead c r eq_refl) in Jss |- *. exact Jss. }
  split.
  - intros c r E. destruct p as [| c0 p0]; [congruence |].
    simpl in E. injection E as <- _. exact (Phead c0 p0 eq_refl).
  - intros l c E.
    apply last_of_app in E as [l' E]; [| discriminate].
    destruct l' as [| x l'].
    + simpl in E. injection E as _ E. congruence.
    + simpl in E. injection E as _ E. exact (Jlast l' c E).
Qed.

(** A normalized text that is not empty and whose source has no en dash
    is tidy, and flushing tidy parts changes nothing more: the
    normalization of tidy texts joined by single spaces is the joined text
    itself. *)
Theorem join_of_tidy_parts :
  (forall raw : str,
      normalize_text raw <> [] -> EN_DASH ∉ raw -> tidy (normalize_text raw))
  /\ (forall parts : list str,
         Forall tidy parts ->
         normalize_text (join [SPACE] parts) = join [SPACE] parts).
Proof.
  split; [exact normalized_is_tidy |].
  intros parts H. destruct parts as [| p parts]; [reflexivity |].
  apply tidy_fixed, tidy_join; [exact H | discriminate].
Qed.

(** ** The further properties at work on the examples *)

Lemma collect_blocks_max_size_witness :
  two_span_block ∈ collect_blocks two_span_page /\
  exists blk : pblock,
    page_blocks two_span_page !! idx two_span_block = Some blk /\
    (exists sp : span,
        sp ∈ concat (block_lines blk) /\
        max_size two_span_block = span_size sp) /\
    (forall sp : span,
        sp ∈ concat (block_lines blk) ->
        (span_size sp <= max_size two_span_block)%Q).
Proof.
  assert (H : two_span_block ∈ collect_blocks two_span_page)
    by (vm_compute; left).
  split; [exact H |].
  exact (collect_blocks_max_size two_span_page two_span_block H).
Defined.

Lemma page_index_without_headers_witness :
  (forall (i : nat) (bs : list pblock),
      scenario_doc !! i = Some bs -> header_block bs = None) /\
  exists printed_to_index : gmap Z nat,
    build_index scenario_doc 0 ∅ = Some printed_to_index /\
    forall (q : Z) (k : nat),
      printed_to_index !! q = Some k <->
      q = (Z.of_nat k + 1)%Z /\ (k < length scenario_doc)%nat.
Proof.
  assert (H : forall (i : nat) (bs : list pblock),
             scenario_doc !! i = Some bs -> header_block bs = None).
  { intros [| [| i]] bs E; simpl in E; [| | discriminate];
      injection E as <-; vm_compute; reflexivity. }
  split; [exact H |].
  exact (page_index_without_headers scenario_doc H).
Defined.

Lemma extracted_records_well_formed_witness :
  (extract_json scenario_doc 1 2 = Some scenario_records \/
   extract_json_v2 scenario_doc 1 2 = Some scenario_records) /\
  Forall emitted_ok scenario_records.
Proof.
  assert (H : extract_json scenario_doc 1 2 = Some scenario_records \/
              extract_json_v2 scenario_doc 1 2 = Some scenario_records)
    by (left; vm_compute; reflexivity).
  split; [exact H |].
  exact (extracted_records_well_formed scenario_doc 1 2 scenario_records H).
Defined.

Lemma extracted_pages_in_range_and_order_witness :
  (extract_json scenario_doc 1 2 = Some scenario_records \/
   extract_json_v2 scenario_doc 1 2 = Some scenario_records) /\
  Forall (fun p => (1 <= p_page p <= 2)%Z) scenario_records /\
  StronglySorted Z.le (map p_page scenario_records).
Proof.
  assert (H : extract_json scenario_doc 1 2 = Some scenario_records \/
              extract_json_v2 scenario_doc 1 2 = Some scenario_records)
    by (left; vm_compute; reflexivity).
  split; [exact H |].
  exact (extracted_pages_in_range_and_order scenario_doc 1 2
           scenario_records H).
Defined.

Lemma v3_section_is_title_or_unset_witness :
  extract_json scenario_doc 1 2 = Some scenario_records /\
  Forall (fun p => p_section p = NA \/ p_section p = p_title p)
         scenario_records.
Proof.
  assert (H : extract_json scenario_doc 1 2 = Some scenario_records)
    by (vm_compute; reflexivity).
  split; [exact H |].
  exact (v3_section_is_title_or_unset scenario_doc 1 2 scenario_records H).
Defined.

Lemma extract_outside_document_witness :
  build_index scenario_doc 0 ∅ = Some scenario_index /\
  (forall (i : nat) (bs : list pblock) (q : Z),
      scenario_doc !! i = Some bs ->
      get_printed_page_number (Page i bs) = Some q ->
      ~ (5 <= q <= 357)%Z) /\
  extract_json scenario_doc 5 357 = Some [] /\
  extract_json_v2 scenario_doc 5 357 = Some [].
Proof.
  assert (Hidx : build_index scenario_doc 0 ∅ = Some scenario_index)
    by (vm_compute; reflexivity).
  assert (H : forall (i : nat) (bs : list pblock) (q : Z),
             scenario_doc !! i = Some bs ->
             get_printed_page_number (Page i bs) = Some q ->
             ~ (5 <= q <= 357)%Z).
  { intros [| [| i]] bs q E Hq; simpl in E; [| | discriminate];
      injection E as <-; vm_compute in Hq; injection Hq as <-; lia. }
  split; [exact Hidx |]. split; [exact H |].
  exact (extract_outside_document scenario_doc 5 357 scenario_index Hidx H).
Defined.

Lemma extract_empty_cases_witness :
  build_index scenario_doc 0 ∅ = Some scenario_index /\
  ((1 < 3)%Z \/ (1 < 0)%Z \/ scenario_doc = []) /\
  extract_json scenario_doc 3 1 = Some [] /\
  extract_json_v2 scenario_doc 3 1 = Some [].
Proof.
  assert (Hidx : build_index scenario_doc 0 ∅ = Some scenario_index)
    by (vm_compute; reflexivity).
  assert (H : (1 < 3)%Z \/ (1 < 0)%Z \/ scenario_doc = []) by (left; lia).
  split; [exact Hidx |]. split; [exact H |].
  exact (extract_empty_cases scenario_doc 3 1 scenario_index Hidx H).
Defined.

Lemma Forall_forallb {A : Type} (f : A -> bool) (l : list A) :
  forallb f l = true -> Forall (fun x => f x = true) l.
Proof.
  induction l as [| x l IH]; simpl; intros H; [constructor |].
  apply andb_prop in H as [Hx H]. constructor; [exact Hx | exact (IH H)].
Qed.

Lemma extractors_agree_on_plain_pages_witness :
  (forall (i : nat) (bs : list pblock),
      plain_doc !! i = Some bs ->
      Forall (fun b => is_plain b = true) (collect_blocks (Page i bs))) /\
  extract_json_v2 plain_doc 1 2 = extract_json plain_doc 1 2.
Proof.
  assert (H : forall (i : nat) (bs : list pblock),
             plain_doc !! i = Some bs ->
             Forall (fun b => is_plain b = true) (collect_blocks (Page i bs))).
  { intros [| [| i]] bs E; simpl in E; [| | discriminate];
      injection E as <-; apply Forall_forallb; vm_compute; reflexivity. }
  split; [exact H |].
  exact (extractors_agree_on_plain_pages plain_doc 1 2 H).
Defined.

(** What the two extractors return on [plain_doc]. *)
Example plain_doc_output :
  extract_json plain_doc 1 2 =
  Some [ Para NA NA NA (lit "1") 1 (lit "Alpha beta gamma");
         Para NA NA NA (lit "2") 2 (lit "Delta") ].
Proof. vm_compute. reflexivity. Qed.

Lemma v2_page_has_one_context_witness :
  cur_para init_state = None /\
  (title (V2.process_blocks 1 init_state interleaved_blocks)
     = title (v2_page_context init_state interleaved_blocks) /\
   section (V2.process_blocks 1 init_state interleaved_blocks)
     = section (v2_page_context init_state interleaved_blocks) /\
   subsection (V2.process_blocks 1 init_state interleaved_blocks)
     = subsection (v2_page_context init_state interleaved_blocks) /\
   (exists new : list para,
       results (V2.process_blocks 1 init_state interleaved_blocks)
         = results init_state ++ new /\
       Forall (opened_under (v2_page_context init_state interleaved_blocks) 1)
              new) /\
   (forall p : para,
       cur_para (V2.process_blocks 1 init_state interleaved_blocks) = Some p ->
       opened_under (v2_page_context init_state interleaved_blocks) 1 p)).
Proof.
  split; [reflexivity |].
  exact (v2_page_has_one_context 1 init_state interleaved_blocks eq_refl).
Defined.

Lemma block_without_space_is_continuation_witness :
  ((forall c : char, c ∈ text lone_number_block -> isspace c = false) /\
   is_title lone_number_block = false) /\
  (V3.heading_match (text lone_number_block) = None /\
   rmatch PARA_START_RE (text lone_number_block) = None /\
   looks_like_table_heading (text lone_number_block) = false /\
   V3.process_block 9 state_in_paragraph lone_number_block =
     if Qlt_bool (max_size lone_number_block) FOOTNOTE_MAX_PT
     then state_in_paragraph
     else match cur_para state_in_paragraph with
          | Some p =>
              State (results state_in_paragraph) (title state_in_paragraph)
                    (section state_in_paragraph)
                    (subsection state_in_paragraph)
                    (chapter_id state_in_paragraph) (Some p)
                    (buf state_in_paragraph ++ [text lone_number_block])
          | None => state_in_paragraph
          end).
Proof.
  assert (H1 : forall c : char,
             c ∈ text lone_number_block -> isspace c = false).
  { intros c Hc. vm_compute in Hc.
    repeat (apply elem_of_cons in Hc as [-> | Hc]; [reflexivity |]).
    inversion Hc. }
  assert (H2 : is_title lone_number_block = false) by reflexivity.
  split; [auto |].
  exact (block_without_space_is_continuation 9 state_in_paragraph
           lone_number_block H1 H2).
Defined.

Lemma table_heading_is_inert_witness :
  (looks_like_table_heading (text table_block) = true /\
   is_title table_block = false) /\
  (V3.heading_match (text table_block) = None /\
   V3.process_block 9 state_in_paragraph table_block = state_in_paragraph).
Proof.
  assert (H1 : looks_like_table_heading (text table_block) = true)
    by reflexivity.
  assert (H2 : is_title table_block = false) by reflexivity.
  split; [auto |].
  exact (table_heading_is_inert 9 state_in_paragraph table_block H1 H2).
Defined.

Lemma paragraph_collects_continuations_witness :
  (is_paragraph_start paragraph_block = true /\
   Forall (fun c => is_continuation c = true) [body_block]) /\
  exists (m : mobj) (p : para) (parts : list str),
    rmatch PARA_START_RE (text paragraph_block) = Some m /\
    p = Para (opt_or_NA (title state_in_paragraph))
             (or_NA (section state_in_paragraph))
             (or_NA (subsection state_in_paragraph))
             (group m 1 (text paragraph_block)) 9 [] /\
    parts = match strip (slice_from (m_end m) (text paragraph_block)) with
            | [] => []
            | rest => [rest]
            end ++ map text [body_block] /\
    V3.process_blocks 9 state_in_paragraph (paragraph_block :: [body_block]) =
      State (results (flush state_in_paragraph)) (title state_in_paragraph)
            (section state_in_paragraph) (subsection state_in_paragraph)
            (chapter_id state_in_paragraph) (Some p) parts /\
    results (flush (V3.process_blocks 9 state_in_paragraph
                      (paragraph_block :: [body_block]))) =
      results (flush state_in_paragraph)
      ++ match normalize_text (join [SPACE] parts) with
         | [] => []
         | t => [set_text p t]
         end.
Proof.
  assert (H1 : is_paragraph_start paragraph_block = true)
    by (vm_compute; reflexivity).
  assert (H2 : Forall (fun c => is_continuation c = true) [body_block])
    by (apply Forall_forallb; vm_compute; reflexivity).
  split; [auto |].
  exact (paragraph_collects_continuations 9 state_in_paragraph
           paragraph_block [body_block] H1 H2).
Defined.

Lemma page_outside_range_is_ignored_witness :
  (scenario_doc !! 1%nat
     = Some [ text_block "to all significant institutions." 11;
              text_block "2. Further, ..." 11 ] /\
   get_printed_page_number
     (Page 1 [ text_block "to all significant institutions." 11;
               text_block "2. Further, ..." 11 ]) = Some 2%Z /\
   get_printed_page_number (Page 1 [text_block "9. Other" 11]) = Some 2%Z /\
   ~ (1 <= 2 <= 1)%Z) /\
  (extract_json (<[1%nat := [text_block "9. Other" 11]]> scenario_doc) 1 1
     = extract_json scenario_doc 1 1 /\
   extract_json_v2 (<[1%nat := [text_block "9. Other" 11]]> scenario_doc) 1 1
     = extract_json_v2 scenario_doc 1 1).
Proof.
  assert (H1 : scenario_doc !! 1%nat
               = Some [ text_block "to all significant institutions." 11;
                        text_block "2. Further, ..." 11 ]) by reflexivity.
  assert (H2 : get_printed_page_number
                 (Page 1 [ text_block "to all significant institutions." 11;
                           text_block "2. Further, ..." 11 ]) = Some 2%Z)
    by (vm_compute; reflexivity).
  assert (H3 : get_printed_page_number (Page 1 [text_block "9. Other" 11])
               = Some 2%Z) by (vm_compute; reflexivity).
  assert (H4 : ~ (1 <= 2 <= 1)%Z) by lia.
  split; [auto |].
  exact (page_outside_range_is_ignored scenario_doc 1 _ _ 2 1 1 H1 H2 H3 H4).
Defined.

Lemma normalize_text_fixed_point_witness :
  ((NEWLINE ∉ lit "a b") /\ (SOFT_HYPHEN ∉ lit "a b") /\
   (EN_DASH ∉ lit "a b") /\
   (forall c : char, c ∈ lit "a b" -> isspace c = true -> c = SPACE) /\
   (forall l r : str, lit "a b" <> l ++ SPACE :: SPACE :: r) /\
   (forall (c : char) (r : str), lit "a b" = c :: r -> isspace c = false) /\
   (forall (l : str) (c : char), lit "a b" = l ++ [c] -> isspace c = false)) /\
  normalize_text (lit "a b") = lit "a b".
Proof.
  assert (Hmem : forall x : char,
             x <> 97 -> x <> SPACE -> x <> 98 -> x ∉ lit "a b").
  { intros x Ha Hs Hb H. vm_compute in H.
    apply elem_of_cons in H as [H | H]; [exact (Ha H) |].
    apply elem_of_cons in H as [H | H]; [exact (Hs H) |].
    apply elem_of_cons in H as [H | H]; [exact (Hb H) | inversion H]. }
  assert (H1 : NEWLINE ∉ lit "a b") by (apply Hmem; discriminate).
  assert (H2 : SOFT_HYPHEN ∉ lit "a b") by (apply Hmem; discriminate).
  assert (H3 : EN_DASH ∉ lit "a b") by (apply Hmem; discriminate).
  assert (H4 : forall c : char,
             c ∈ lit "a b" -> isspace c = true -> c = SPACE).
  { intros c Hc. vm_compute in Hc.
    apply elem_of_cons in Hc as [-> | Hc]; [discriminate |].
    apply elem_of_cons in Hc as [-> | Hc]; [reflexivity |].
    apply elem_of_cons in Hc as [-> | Hc]; [discriminate | inversion Hc]. }
  assert (H5 : forall l r : str, lit "a b" <> l ++ SPACE :: SPACE :: r).
  { intros l r E.
    assert (Hs : single_spaced false (lit "a b") = true) by reflexivity.
    rewrite E, single_spaced_no_double in Hs. discriminate. }
  assert (H6 : forall (c : char) (r : str),
             lit "a b" = c :: r -> isspace c = false).
  { intros c r E. injection E as <- _. reflexivity. }
  assert (H7 : forall (l : str) (c : char),
             lit "a b" = l ++ [c] -> isspace c = false).
  { intros l c E. apply (f_equal (@rev char)) in E.
    rewrite rev_app_distr in E. injection E as <- _. reflexivity. }
  split; [auto 10 |].
  exact (normalize_text_fixed_point (lit "a b") H1 H2 H3 H4 H5 H6 H7).
Defined.

Lemma join_of_tidy_parts_witness :
  (normalize_text (lit " a  b ") <> [] /\ (EN_DASH ∉ lit " a  b ")) /\
  tidy (normalize_text (lit " a  b ")) /\
  normalize_text (join [SPACE] [normalize_text (lit " a  b ");
                                normalize_text (lit " a  b ")])
  = join [SPACE] [normalize_text (lit " a  b ");
                  normalize_text (lit " a  b ")].
Proof.
  assert (H1 : normalize_text (lit " a  b ") <> [])
    by (vm_compute; discriminate).
  assert (H2 : EN_DASH ∉ lit " a  b ").
  { intros H. vm_compute in H.
    repeat (apply elem_of_cons in H as [H | H]; [discriminate |]).
    inversion H. }
  assert (Ht : tidy (normalize_text (lit " a  b ")))
    by exact (proj1 join_of_tidy_parts (lit " a  b ") H1 H2).
  split; [auto |]. split; [exact Ht |].
  apply (proj2 join_of_tidy_parts).
  constructor; [exact Ht |]. constructor; [exact Ht |]. constructor.
Defined.

Lemma normalize_idempotent_no_dash_witness :
  (EN_DASH ∉ lit " a  b ") /\
  normalize_text (normalize_text (lit " a  b ")) = normalize_text (lit " a  b ").
Proof.
  assert (H : EN_DASH ∉ lit " a  b ").
  { intros H. vm_compute in H.
    repeat (apply elem_of_cons in H as [H | H]; [discriminate |]).
    inversion H. }
  split; [exact H |].
  exact (normalize_idempotent_no_dash (lit " a  b ") H).
Defined.
